(** * autoshades: the shading geometry of [autoshades.py]

    A shallow embedding of the ray/cuboid slab test, the window sampling
    pass and the conversion to rail positions, followed by the properties
    of the specification that concern them.

    Modelling conventions.
    - NumPy [float64] values are idealised as real numbers ([R]): no
      rounding, no NaN.  The two infinities that the code uses as sentinels
      ([np.inf], [-np.inf]) are modelled by [None] in an [option]; every
      variable that can hold a sentinel can hold only one of the two.
    - Integer coordinates (the window corners, the loop variables [y] and
      [z]) are mathematical integers ([Z]); they are injected into [R] where
      the code mixes them with floats.
    - [np.radians], [np.cos] and [np.sin] are the real functions.

    The real-number model decides the general statements.  Where rounding
    changes the answer of the program, the same code is also given on
    binary64 floats ([ray_intersects_cuboid_f64], [relative_azimuth_f64]),
    with the hardware operations of the kernel's primitive floats, and is
    evaluated there on concrete inputs. *)

From Stdlib Require Import PrimFloat.
From Stdlib Require Import Reals ZArith List String Bool Lra Lia.
Import ListNotations.

Local Open Scope R_scope.

(** ** Numeric helpers *)

Definition Rltb (a b : R) : bool := if Rlt_dec a b then true else false.
Definition Rgtb (a b : R) : bool := Rltb b a.
Definition Reqb (a b : R) : bool := if Req_dec_T a b then true else false.

(** [np.radians]. *)
Definition radians (deg : R) : R := deg * PI / 180.

(** Python's [range(lo, hi)] over integers. *)
Definition range (lo hi : Z) : list Z :=
  map (fun k => (lo + Z.of_nat k)%Z) (seq 0 (Z.to_nat (hi - lo))).

(** Python's [int(x)] on a float: truncation toward zero. *)
Definition py_int (x : R) : Z :=
  if Rle_dec 0 x then Int_part x else (- Int_part (- x))%Z.

(** ** Geometry primitives *)

(** A three-component array, indexed by [0], [1], [2]. *)
Record vec3 (A : Type) : Type := mkVec { vx : A; vy : A; vz : A }.
Arguments mkVec {A} _ _ _.
Arguments vx {A} _.
Arguments vy {A} _.
Arguments vz {A} _.

Definition idx {A : Type} (v : vec3 A) (i : nat) : A :=
  match i with
  | O => vx v
  | S O => vy v
  | _ => vz v
  end.

Definition vecR (v : vec3 Z) : vec3 R :=
  mkVec (IZR (vx v)) (IZR (vy v)) (IZR (vz v)).

(** ** Ray / cuboid intersection (slab method) *)

(** The pair [(t_near, t_far)]; [None] stands for [-np.inf] in the first
    component and for [np.inf] in the second. *)
Definition slab : Type := (option R * option R)%type.

(** [t1 > t_near] *)
Definition gt_near (t1 : R) (t_near : option R) : bool :=
  match t_near with
  | None => true
  | Some n => Rgtb t1 n
  end.

(** [t2 < t_far] *)
Definition lt_far (t2 : R) (t_far : option R) : bool :=
  match t_far with
  | None => true
  | Some f => Rltb t2 f
  end.

(** [t_near > t_far] *)
Definition near_gt_far (t_near t_far : option R) : bool :=
  match t_near, t_far with
  | Some n, Some f => Rgtb n f
  | _, _ => false
  end.

(** [t_far < 0] *)
Definition far_negative (t_far : option R) : bool :=
  match t_far with
  | Some f => Rltb f 0
  | None => false
  end.

(** One iteration of the loop [for i in range(3)]: [None] is the early
    [return False], [Some s] the state carried to the next iteration. *)
Definition slab_step (ray_origin ray_direction cuboid_min cuboid_max : vec3 R)
    (s : slab) (i : nat) : option slab :=
  let '(t_near, t_far) := s in
  if Reqb (idx ray_direction i) 0 then
    if Rltb (idx ray_origin i) (idx cuboid_min i)
       || Rgtb (idx ray_origin i) (idx cuboid_max i)
    then None
    else Some (t_near, t_far)
  else
    let inv_dir := 1 / idx ray_direction i in
    let t1 := (idx cuboid_min i - idx ray_origin i) * inv_dir in
    let t2 := (idx cuboid_max i - idx ray_origin i) * inv_dir in
    let '(t1, t2) := if Rgtb t1 t2 then (t2, t1) else (t1, t2) in
    let t_near := if gt_near t1 t_near then Some t1 else t_near in
    let t_far := if lt_far t2 t_far then Some t2 else t_far in
    if near_gt_far t_near t_far || far_negative t_far
    then None
    else Some (t_near, t_far).

Fixpoint slab_loop (ray_origin ray_direction cuboid_min cuboid_max : vec3 R)
    (s : slab) (axes : list nat) : bool :=
  match axes with
  | [] => true
  | i :: rest =>
      match slab_step ray_origin ray_direction cuboid_min cuboid_max s i with
      | None => false
      | Some s' =>
          slab_loop ray_origin ray_direction cuboid_min cuboid_max s' rest
      end
  end.

Definition ray_intersects_cuboid
    (ray_origin ray_direction cuboid_min cuboid_max : vec3 R) : bool :=
  slab_loop ray_origin ray_direction cuboid_min cuboid_max
    (None, None) [0%nat; 1%nat; 2%nat].

(** ** Configuration *)

Definition WINDOW_ORIENTATION : R := 150.

Record box (A : Type) : Type := mkBox { bmin : vec3 A; bmax : vec3 A }.
Arguments mkBox {A} _ _.
Arguments bmin {A} _.
Arguments bmax {A} _.

Definition DESK_BOUNDS : box R :=
  mkBox (mkVec (60 + 12) 108 30) (mkVec (122 - 12) 132 54).

Record window : Type := mkWindow {
  wmin : vec3 Z;
  wmax : vec3 Z;
  top_rail_id : string;
  bottom_rail_id : string
}.

Definition Window1 : window :=
  mkWindow (mkVec 148 98 44)%Z (mkVec 148 126 90)%Z
    "office_1_bottom_up" "office_1_top_down".

Definition Window2 : window :=
  mkWindow (mkVec 159 18 24)%Z (mkVec 159 59 90)%Z
    "office_1_bottom_up" "office_2_top_down".

(** The dictionary [WINDOW_BOUNDS], in insertion order. *)
Definition WINDOW_BOUNDS : list (string * window) :=
  [ ("Window1"%string, Window1); ("Window2"%string, Window2) ].

(** ** Shading sampler and shade state *)

(** The row of the solar-position table that the code reads. *)
Record sun : Type := mkSun { azimuth : R; elevation : R }.

(** The running aggregates of the sampling pass.  [None] in [min_z] is
    [np.inf], [None] in [max_z] is [-np.inf]. *)
Record sample : Type := mkSample {
  min_z : option Z;
  max_z : option Z;
  total_rays : nat
}.

(** [min(min_z, z)] and [max(max_z, z)]. *)
Definition min_with (m : option Z) (z : Z) : option Z :=
  match m with
  | None => Some z
  | Some a => Some (Z.min a z)
  end.

Definition max_with (m : option Z) (z : Z) : option Z :=
  match m with
  | None => Some z
  | Some a => Some (Z.max a z)
  end.

(** The tuple returned by [calculate_shading_requirements]. *)
Record shading : Type := mkShading {
  top_percent : R;
  bottom_percent : R;
  shady_rays : nat;
  relative_azimuth : R;
  sun_elevation : R
}.

Definition relative_azimuth_of (sun_position : sun) : R :=
  let relative_azimuth := azimuth sun_position - WINDOW_ORIENTATION in
  if Rltb relative_azimuth 0 then relative_azimuth + 360
  else relative_azimuth.

Definition ray_direction_of (relative_azimuth_rads elevation_rads : R)
  : vec3 R :=
  mkVec (- cos relative_azimuth_rads)
        (sin relative_azimuth_rads)
        (- sin elevation_rads).

(** Body of the inner loop, for one grid point [(y, z)]. *)
Definition sample_point (ray_direction desk_min desk_max : vec3 R)
    (window_min : vec3 Z) (y : Z) (acc : sample) (z : Z) : sample :=
  let ray_origin := vecR (mkVec (vx window_min) y z) in
  if ray_intersects_cuboid ray_origin ray_direction desk_min desk_max then
    mkSample (min_with (min_z acc) z) (max_with (max_z acc) z)
             (S (total_rays acc))
  else acc.

(** The inner loop [for z in range(window_min[2], window_max[2])]. *)
Definition sample_column (ray_direction desk_min desk_max : vec3 R)
    (window_min window_max : vec3 Z) (acc : sample) (y : Z) : sample :=
  fold_left (sample_point ray_direction desk_min desk_max window_min y)
            (range (vz window_min) (vz window_max)) acc.

(** The outer loop [for y in range(window_min[1], window_max[1])]. *)
Definition sample_window (ray_direction desk_min desk_max : vec3 R)
    (window_min window_max : vec3 Z) : sample :=
  fold_left (sample_column ray_direction desk_min desk_max
               window_min window_max)
            (range (vy window_min) (vy window_max))
            (mkSample None None 0).

(** The parameter [window_orientation] is accepted and never read: the body
    uses the module-level [WINDOW_ORIENTATION]. *)
Definition calculate_shading_requirements (sun_position : sun)
    (desk_min desk_max : vec3 R) (window_min window_max : vec3 Z)
    (window_orientation : R) : shading :=
  let relative_azimuth := relative_azimuth_of sun_position in
  let elevation := elevation sun_position in
  let relative_azimuth_rads := radians relative_azimuth in
  let elevation_rads := radians elevation in
  let acc :=
    sample_window (ray_direction_of relative_azimuth_rads elevation_rads)
                  desk_min desk_max window_min window_max in
  let window_height := (vz window_max - vz window_min)%Z in
  if Nat.eqb (total_rays acc) 0 then
    mkShading 0 0 (total_rays acc) relative_azimuth elevation
  else
    let top_percent :=
      match max_z acc with
      | Some m => IZR (vz window_max - m) / IZR window_height
      | None => 0
      end in
    let bottom_percent :=
      match min_z acc with
      | Some m => IZR (vz window_max - m) / IZR window_height
      | None => 1
      end in
    mkShading top_percent bottom_percent (total_rays acc)
              relative_azimuth elevation.

(** The code contains no [raise], and under the conventions above none of
    its operations fails: a call always returns its tuple.  The outcome type
    makes that explicit, so that statements about failing calls can be
    written. *)
Inductive error : Type := InvalidGeometry.

Inductive outcome (A : Type) : Type :=
  | Returns (a : A)
  | Raises (e : error).
Arguments Returns {A} _.
Arguments Raises {A} _.

Definition call_calculate_shading_requirements (sun_position : sun)
    (desk_min desk_max : vec3 R) (window_min window_max : vec3 Z)
    (window_orientation : R) : outcome shading :=
  Returns (calculate_shading_requirements sun_position desk_min desk_max
             window_min window_max window_orientation).

(** ** Published rail positions *)

Record shade_position : Type := mkPosition { top : Z; bottom : Z }.

(** Body of the loop over [WINDOW_BOUNDS.items()]. *)
Definition window_shade_position (sun_pos : sun) (bounds : window)
  : shade_position :=
  let r := calculate_shading_requirements sun_pos
             (bmin DESK_BOUNDS) (bmax DESK_BOUNDS)
             (wmin bounds) (wmax bounds) WINDOW_ORIENTATION in
  let top_position := py_int (top_percent r * 100) in
  let bottom_position := (100 - py_int (bottom_percent r * 100))%Z in
  mkPosition top_position bottom_position.

(** [calculate_current_shade_positions], as a function of the sun position
    that the code obtains from the solar-position provider.  The resulting
    dictionary is listed in insertion order; the keys of [WINDOW_BOUNDS] are
    distinct. *)
Definition calculate_current_shade_positions (sun_pos : sun)
  : list (string * shade_position) :=
  map (fun '(window_name, bounds) =>
         (window_name, window_shade_position sun_pos bounds))
      WINDOW_BOUNDS.

(** ** The same code on binary64 floats *)

(** [ray_intersects_cuboid] with every operation the IEEE 754 binary64 one:
    [t_near] and [t_far] start at the two infinities, [1.0 / d] and the two
    products are rounded, and [a > b] is [b < a]. *)
Definition slab_step_f64
    (ray_origin ray_direction cuboid_min cuboid_max : vec3 PrimFloat.float)
    (s : PrimFloat.float * PrimFloat.float) (i : nat)
  : option (PrimFloat.float * PrimFloat.float) :=
  let '(t_near, t_far) := s in
  if PrimFloat.eqb (idx ray_direction i) 0%float then
    if PrimFloat.ltb (idx ray_origin i) (idx cuboid_min i)
       || PrimFloat.ltb (idx cuboid_max i) (idx ray_origin i)
    then None
    else Some (t_near, t_far)
  else
    let inv_dir := PrimFloat.div 1%float (idx ray_direction i) in
    let t1 :=
      PrimFloat.mul (PrimFloat.sub (idx cuboid_min i) (idx ray_origin i))
                    inv_dir in
    let t2 :=
      PrimFloat.mul (PrimFloat.sub (idx cuboid_max i) (idx ray_origin i))
                    inv_dir in
    let '(t1, t2) := if PrimFloat.ltb t2 t1 then (t2, t1) else (t1, t2) in
    let t_near := if PrimFloat.ltb t_near t1 then t1 else t_near in
    let t_far := if PrimFloat.ltb t2 t_far then t2 else t_far in
    if PrimFloat.ltb t_far t_near || PrimFloat.ltb t_far 0%float
    then None
    else Some (t_near, t_far).

Fixpoint slab_loop_f64
    (ray_origin ray_direction cuboid_min cuboid_max : vec3 PrimFloat.float)
    (s : PrimFloat.float * PrimFloat.float) (axes : list nat) : bool :=
  match axes with
  | [] => true
  | i :: rest =>
      match slab_step_f64 ray_origin ray_direction cuboid_min cuboid_max s i
      with
      | None => false
      | Some s' =>
          slab_loop_f64 ray_origin ray_direction cuboid_min cuboid_max s' rest
      end
  end.

Definition ray_intersects_cuboid_f64
    (ray_origin ray_direction cuboid_min cuboid_max : vec3 PrimFloat.float)
  : bool :=
  slab_loop_f64 ray_origin ray_direction cuboid_min cuboid_max
    (PrimFloat.neg_infinity, PrimFloat.infinity) [0%nat; 1%nat; 2%nat].

(** Lines 69-71 on binary64 floats, with [WINDOW_ORIENTATION = 150]. *)
Definition relative_azimuth_f64 (azimuth : PrimFloat.float)
  : PrimFloat.float :=
  let relative_azimuth := PrimFloat.sub azimuth 150%float in
  if PrimFloat.ltb relative_azimuth 0%float
  then PrimFloat.add relative_azimuth 360%float
  else relative_azimuth.

(** * Vocabulary of the statements *)

(** The point [origin + t * direction] lies in the closed box on axis [i]. *)
Definition on_axis (o d lo hi : vec3 R) (t : R) (i : nat) : Prop :=
  idx lo i <= idx o i + t * idx d i <= idx hi i.

(** The ray reaches the closed box at parameter [t]. *)
Definition reaches (o d lo hi : vec3 R) (t : R) : Prop :=
  0 <= t /\ forall i : nat, on_axis o d lo hi t i.

(** [t] lies in the parametric interval kept by the loop. *)
Definition brackets (s : slab) (t : R) : Prop :=
  match fst s with Some n => n <= t | None => True end /\
  match snd s with Some f => t <= f | None => True end.

(** Points, closed boxes and open boxes, written out on the three axes. *)
Definition point_at (o d : vec3 R) (t : R) : vec3 R :=
  mkVec (vx o + t * vx d) (vy o + t * vy d) (vz o + t * vz d).

Definition in_box (p lo hi : vec3 R) : Prop :=
  vx lo <= vx p <= vx hi /\ vy lo <= vy p <= vy hi /\ vz lo <= vz p <= vz hi.

Definition strictly_inside (p lo hi : vec3 R) : Prop :=
  vx lo < vx p < vx hi /\ vy lo < vy p < vy hi /\ vz lo < vz p < vz hi.



(** What the aggregates look like during a pass over heights in
    [lo, hi): either nothing was hit, or both extremes are heights of the
    grid, in order. *)
Definition sample_ok (lo hi : Z) (a : sample) : Prop :=
  (total_rays a = 0%nat /\ min_z a = None /\ max_z a = None) \/
  ((0 < total_rays a)%nat /\
   exists mn mx, min_z a = Some mn /\ max_z a = Some mx /\
                 (lo <= mn <= mx)%Z /\ (mx < hi)%Z).

(** The aggregates record a hit at height [z0] or above. *)
Definition seen (z0 : Z) (a : sample) : Prop :=
  (0 < total_rays a)%nat /\ exists mx, max_z a = Some mx /\ (z0 <= mx)%Z.

(** Azimuth 150, elevation 30: the sun straight in front of the window. *)
Definition sun_ahead : sun := mkSun 150 30.

(** Azimuth 330, elevation 30: the sun straight behind the window. *)
Definition sun_behind : sun := mkSun 330 30.

(** A window whose two corners have the same height. *)
Definition flat_window_max : vec3 Z := (mkVec 148 126 44)%Z.

(** [x mod m] on reals, with the sign of the divisor as in Python:
    [x - m * floor (x / m)]; [Int_part] is the floor. *)
Definition Rmod (x m : R) : R := x - m * IZR (Int_part (x / m)).

(** Reading a key of a dictionary. *)
Fixpoint dict_get {A : Type} (k : string) (d : list (string * A)) : option A :=
  match d with
  | [] => None
  | (k', v) :: rest => if String.eqb k k' then Some v else dict_get k rest
  end.

(** ** Vocabulary for the slab test on arbitrary boxes *)

(** [x] lies between [a] and [b], in either order. *)
Definition between (a x b : R) : Prop := a <= x <= b \/ b <= x <= a.

(** What the loop demands of the ray at parameter [t] on axis [i]: on an
    axis the ray is parallel to, the origin lies in [lo, hi]; on any other
    axis the point lies between the two faces, whichever is the greater. *)
Definition slab_holds (o d lo hi : vec3 R) (t : R) (i : nat) : Prop :=
  (idx d i = 0 /\ idx lo i <= idx o i <= idx hi i) \/
  (idx d i <> 0 /\ between (idx lo i) (idx o i + t * idx d i) (idx hi i)).

(** A box with [min <= max] on every axis. *)
Definition valid_box (lo hi : vec3 R) : Prop :=
  vx lo <= vx hi /\ vy lo <= vy hi /\ vz lo <= vz hi.

(** The box [(lo, hi)] is contained in the box [(lo', hi')]. *)
Definition box_within (lo hi lo' hi' : vec3 R) : Prop :=
  (vx lo' <= vx lo /\ vx hi <= vx hi') /\
  (vy lo' <= vy lo /\ vy hi <= vy hi') /\
  (vz lo' <= vz lo /\ vz hi <= vz hi').

Definition shift (v p : vec3 R) : vec3 R :=
  mkVec (vx p + vx v) (vy p + vy v) (vz p + vz v).

(** ** Vocabulary for the sampling pass *)

(** The heights of the obstructed rays of the grid, one entry per ray, in
    the order in which the two loops visit them. *)
Definition obstructed_heights (ray_direction desk_min desk_max : vec3 R)
    (window_min window_max : vec3 Z) : list Z :=
  flat_map
    (fun y =>
       filter
         (fun z =>
            ray_intersects_cuboid (vecR (mkVec (vx window_min) y z))
              ray_direction desk_min desk_max)
         (range (vz window_min) (vz window_max)))
    (range (vy window_min) (vy window_max)).

(** Some ray of the grid at height [z] is obstructed. *)
Definition obstructed (ray_direction desk_min desk_max : vec3 R)
    (window_min window_max : vec3 Z) (z : Z) : Prop :=
  exists y,
    In y (range (vy window_min) (vy window_max)) /\
    In z (range (vz window_min) (vz window_max)) /\
    ray_intersects_cuboid (vecR (mkVec (vx window_min) y z))
      ray_direction desk_min desk_max = true.

(** The update of the aggregates for one obstructed ray, and for a list of
    them. *)
Definition absorb_one (acc : sample) (z : Z) : sample :=
  mkSample (min_with (min_z acc) z) (max_with (max_z acc) z)
           (S (total_rays acc)).

Definition absorb (acc : sample) (hs : list Z) : sample :=
  fold_left absorb_one hs acc.

(** The aggregates hold the least and the greatest of the heights [seen]. *)
Definition extremes_of (seen : list Z) (acc : sample) : Prop :=
  (seen = [] /\ min_z acc = None /\ max_z acc = None) \/
  (exists mn mx,
     min_z acc = Some mn /\ max_z acc = Some mx /\
     In mn seen /\ In mx seen /\
     forall z, In z seen -> (mn <= z <= mx)%Z).

(** The direction that [calculate_shading_requirements] gives its rays. *)
Definition sun_direction (sun_position : sun) : vec3 R :=
  ray_direction_of (radians (relative_azimuth_of sun_position))
                   (radians (elevation sun_position)).

(** ** The time series of [generate_time_series] *)

(** One tuple of the list [results]. *)
Record series_row (T : Type) : Type := mkRow {
  row_time : T;
  row_window : string;
  row_top : R;
  row_bottom : R;
  row_rays : nat;
  row_azimuth : R;
  row_elevation : R
}.
Arguments mkRow {T} _ _ _ _ _ _ _.
Arguments row_time {T} _.
Arguments row_window {T} _.
Arguments row_top {T} _.
Arguments row_bottom {T} _.
Arguments row_rays {T} _.
Arguments row_azimuth {T} _.
Arguments row_elevation {T} _.

(** The tuple appended for one time and one window. *)
Definition series_entry {T : Type} (time : T) (sun_pos : sun)
    (window_name : string) (bounds : window) : series_row T :=
  let r := calculate_shading_requirements sun_pos
             (bmin DESK_BOUNDS) (bmax DESK_BOUNDS)
             (wmin bounds) (wmax bounds) WINDOW_ORIENTATION in
  mkRow time window_name (top_percent r) (bottom_percent r) (shady_rays r)
        (relative_azimuth r) (sun_elevation r).

(** The list [results] built by the two nested loops of
    [generate_time_series]: for each time, one tuple per window.  [T] is the
    type of the timestamps and [sun_of] the solar-position provider
    ([sun_position(LATITUDE, LONGITUDE, TZ, time).iloc[0]]). *)
Definition generate_time_series_results {T : Type} (sun_of : T -> sun)
    (times : list T) : list (series_row T) :=
  flat_map
    (fun time =>
       let sun_pos := sun_of time in
       map (fun '(window_name, bounds) =>
              series_entry time sun_pos window_name bounds)
           WINDOW_BOUNDS)
    times.

(** The two tuples that frame [i] of the animation reads: [results[i*2]]
    for its first subplot and [results[i*2+1]] for its second. *)
Definition animate_rows {T : Type} (results : list (series_row T)) (i : nat)
  : option (series_row T) * option (series_row T) :=
  (nth_error results (i * 2), nth_error results (i * 2 + 1)).

(** * Properties *)

(** ** Comparisons *)

Lemma Rltb_true (a b : R) : Rltb a b = true <-> a < b.
Proof. unfold Rltb; destruct (Rlt_dec a b); split; intros; congruence || lra. Qed.

Lemma Rltb_false (a b : R) : Rltb a b = false <-> b <= a.
Proof. unfold Rltb; destruct (Rlt_dec a b); split; intros; congruence || lra. Qed.

Lemma Rgtb_true (a b : R) : Rgtb a b = true <-> b < a.
Proof. apply Rltb_true. Qed.

Lemma Rgtb_false (a b : R) : Rgtb a b = false <-> a <= b.
Proof. apply Rltb_false. Qed.

Lemma Reqb_true (a b : R) : Reqb a b = true <-> a = b.
Proof. unfold Reqb; destruct (Req_dec_T a b); split; intros; congruence. Qed.

Lemma Reqb_false (a b : R) : Reqb a b = false <-> a <> b.
Proof. unfold Reqb; destruct (Req_dec_T a b); split; intros; congruence. Qed.

(** Case analysis on every comparison of the goal, each case carrying the
    order fact it stands for. *)
Ltac cmp_cases :=
  repeat match goal with
  | |- context [Rltb ?a ?b] =>
      let E := fresh "E" in
      destruct (Rltb a b) eqn:E;
      [apply Rltb_true in E | apply Rltb_false in E]
  | |- context [Rgtb ?a ?b] =>
      let E := fresh "E" in
      destruct (Rgtb a b) eqn:E;
      [apply Rgtb_true in E | apply Rgtb_false in E]
  | |- context [Reqb ?a ?b] =>
      let E := fresh "E" in
      destruct (Reqb a b) eqn:E;
      [apply Reqb_true in E | apply Reqb_false in E]
  end.

(** ** The slab test accepts every ray that reaches the closed box *)

Lemma quotient_le_pos (a d t : R) : 0 < d -> a <= t * d -> a * (1 / d) <= t.
Proof.
  intros Hd H.
  replace t with (t * d * (1 / d)) by (field; lra).
  apply Rmult_le_compat_r; [|exact H].
  apply Rlt_le, Rdiv_lt_0_compat; lra.
Qed.

Lemma quotient_ge_pos (a d t : R) : 0 < d -> t * d <= a -> t <= a * (1 / d).
Proof.
  intros Hd H.
  replace t with (t * d * (1 / d)) at 1 by (field; lra).
  apply Rmult_le_compat_r; [|exact H].
  apply Rlt_le, Rdiv_lt_0_compat; lra.
Qed.

Lemma quotient_le_neg (a d t : R) : d < 0 -> t * d <= a -> a * (1 / d) <= t.
Proof.
  intros Hd H.
  replace (a * (1 / d)) with ((- a) * (1 / (- d))) by (field; lra).
  apply quotient_le_pos; lra.
Qed.

Lemma quotient_ge_neg (a d t : R) : d < 0 -> a <= t * d -> t <= a * (1 / d).
Proof.
  intros Hd H.
  replace (a * (1 / d)) with ((- a) * (1 / (- d))) by (field; lra).
  apply quotient_ge_pos; lra.
Qed.

Lemma slab_step_reaches (o d lo hi : vec3 R) (t : R) (s : slab) (i : nat) :
  0 <= t -> on_axis o d lo hi t i -> brackets s t ->
  exists s', slab_step o d lo hi s i = Some s' /\ brackets s' t.
Proof.
  intros Ht [Hlo Hhi] [Hn Hf]. destruct s as [t_near t_far]; simpl in Hn, Hf.
  unfold slab_step.
  destruct (Reqb (idx d i) 0) eqn:Ed.
  - apply Reqb_true in Ed. rewrite Ed, Rmult_0_r, Rplus_0_r in Hlo, Hhi.
    cmp_cases; simpl; try lra.
    eexists; split; [reflexivity|]. split; assumption.
  - apply Reqb_false in Ed.
    set (t1 := (idx lo i - idx o i) * (1 / idx d i)).
    set (t2 := (idx hi i - idx o i) * (1 / idx d i)).
    assert (Hb : (t1 <= t <= t2) \/ (t2 <= t <= t1)).
    { destruct (Rlt_dec 0 (idx d i)) as [Hp|Hp].
      - left; split; [apply quotient_le_pos|apply quotient_ge_pos]; lra.
      - right; split; [apply quotient_le_neg|apply quotient_ge_neg]; lra. }
    assert (Hsw : exists a b, (if Rgtb t1 t2 then (t2, t1) else (t1, t2)) = (a, b)
                              /\ a <= t <= b).
    { cmp_cases; eexists; eexists; (split; [reflexivity|]); lra. }
    destruct Hsw as (a & b & -> & Ha & Hb').
    assert (Hn' : match (if gt_near a t_near then Some a else t_near) with
                  | Some n => n <= t | None => True end).
    { destruct (gt_near a t_near); assumption. }
    assert (Hf' : match (if lt_far b t_far then Some b else t_far) with
                  | Some f => t <= f | None => True end).
    { destruct (lt_far b t_far); assumption. }
    destruct (if gt_near a t_near then Some a else t_near) as [n|];
    destruct (if lt_far b t_far then Some b else t_far) as [f|];
      simpl; cmp_cases; simpl; try lra;
      (eexists; split; [reflexivity|]; split; simpl; assumption).
Qed.

Lemma slab_loop_reaches (o d lo hi : vec3 R) (t : R) (axes : list nat) :
  reaches o d lo hi t ->
  forall s, brackets s t -> slab_loop o d lo hi s axes = true.
Proof.
  intros [Ht Hin]. induction axes as [|i rest IH]; intros s Hs; simpl.
  - reflexivity.
  - destruct (slab_step_reaches o d lo hi t s i Ht (Hin i) Hs) as (s' & -> & Hs').
    apply IH, Hs'.
Qed.

Lemma reaches_intersects (o d lo hi : vec3 R) (t : R) :
  reaches o d lo hi t -> ray_intersects_cuboid o d lo hi = true.
Proof.
  intros H. unfold ray_intersects_cuboid.
  apply slab_loop_reaches with (t := t); [exact H|]. split; exact I.
Qed.

Lemma in_box_reaches (o d lo hi : vec3 R) (t : R) :
  0 <= t -> in_box (point_at o d t) lo hi -> reaches o d lo hi t.
Proof.
  intros Ht (Hx & Hy & Hz). split; [exact Ht|].
  intros [|[|i]]; unfold on_axis; simpl; assumption.
Qed.

(** C4. A ray whose origin lies strictly inside the box intersects it,
    whatever its direction, zero components included. *)
Theorem origin_inside_intersects (ray_origin ray_direction cuboid_min cuboid_max : vec3 R) :
  strictly_inside ray_origin cuboid_min cuboid_max ->
  ray_intersects_cuboid ray_origin ray_direction cuboid_min cuboid_max = true.
Proof.
  intros (Hx & Hy & Hz).
  apply reaches_intersects with (t := 0), in_box_reaches; [lra|].
  unfold in_box, point_at; simpl. lra.
Qed.

Lemma origin_inside_intersects_witness :
  strictly_inside (mkVec 80 120 40) (bmin DESK_BOUNDS) (bmax DESK_BOUNDS) /\
  ray_intersects_cuboid (mkVec 80 120 40) (mkVec 0 1 (-3))
    (bmin DESK_BOUNDS) (bmax DESK_BOUNDS) = true.
Proof.
  assert (H : strictly_inside (mkVec 80 120 40)
                (bmin DESK_BOUNDS) (bmax DESK_BOUNDS)).
  { unfold strictly_inside; simpl; lra. }
  split; [exact H|].
  exact (origin_inside_intersects (mkVec 80 120 40) (mkVec 0 1 (-3))
           (bmin DESK_BOUNDS) (bmax DESK_BOUNDS) H).
Defined.




(** The same two rays on binary64: the sliding ray, and the ray that starts
    on the edge [x = 0, y = 1] and leaves the cube along [(-1, 1, 0)]. *)
Lemma grazing_exact_cases_in_binary64 :
  ray_intersects_cuboid_f64
    (mkVec (-1) 1 0.5)%float (mkVec 1 0 0)%float
    (mkVec 0 0 0)%float (mkVec 1 1 1)%float = true /\
  ray_intersects_cuboid_f64
    (mkVec 0 1 0.5)%float (mkVec (-1) 1 0)%float
    (mkVec 0 0 0)%float (mkVec 1 1 1)%float = true.
Proof. split; vm_compute; reflexivity. Qed.

(** ** The sampling pass *)

Lemma in_range (lo hi z : Z) : In z (range lo hi) <-> (lo <= z < hi)%Z.
Proof.
  unfold range. rewrite in_map_iff. split.
  - intros (k & <- & Hk). apply in_seq in Hk. lia.
  - intros H. exists (Z.to_nat (z - lo)). split; [lia|].
    apply in_seq. lia.
Qed.

Lemma range_empty (lo hi : Z) : (hi <= lo)%Z -> range lo hi = [].
Proof.
  intros H. unfold range. replace (Z.to_nat (hi - lo)) with 0%nat by lia.
  reflexivity.
Qed.

Section Folds.
Context {A B : Type} (f : A -> B -> A).

(** A property kept by every step of a loop holds when the loop ends. *)
Lemma fold_left_keeps (P : A -> Prop) (l : list B) :
  (forall a x, In x l -> P a -> P (f a x)) ->
  forall a, P a -> P (fold_left f l a).
Proof.
  induction l as [|x l IH]; intros Hstep a Ha; simpl; [exact Ha|].
  apply IH.
  - intros a' x' Hx'. apply Hstep. right; exact Hx'.
  - apply Hstep; [left; reflexivity|exact Ha].
Qed.

(** A property established by the step at [x0] and kept by every step
    holds when the loop over a list containing [x0] ends. *)
Lemma fold_left_reaches (Q : A -> Prop) (l : list B) (x0 : B) :
  In x0 l ->
  (forall a, Q (f a x0)) ->
  (forall a x, Q a -> Q (f a x)) ->
  forall a, Q (fold_left f l a).
Proof.
  intros Hin Hset Hkeep. induction l as [|x l IH]; intros a; [destruct Hin|].
  simpl. destruct Hin as [->|Hin].
  - apply fold_left_keeps; [intros; apply Hkeep; assumption|apply Hset].
  - apply IH, Hin.
Qed.
End Folds.

Section Sampling.
Variables ray_direction desk_min desk_max : vec3 R.
Variables window_min window_max : vec3 Z.

Let lo := vz window_min.
Let hi := vz window_max.

Lemma sample_point_ok (y z : Z) (a : sample) :
  (lo <= z < hi)%Z -> sample_ok lo hi a ->
  sample_ok lo hi
    (sample_point ray_direction desk_min desk_max window_min y a z).
Proof.
  intros Hz Ha. unfold sample_point.
  destruct (ray_intersects_cuboid _ _ _ _); [|exact Ha].
  right. simpl. split; [lia|].
  destruct Ha as [(_ & -> & ->)|(_ & mn & mx & -> & -> & H1 & H2)]; simpl.
  - exists z, z. repeat split; lia.
  - exists (Z.min mn z), (Z.max mx z). repeat split; lia.
Qed.

Lemma sample_column_ok (y : Z) (a : sample) :
  sample_ok lo hi a ->
  sample_ok lo hi
    (sample_column ray_direction desk_min desk_max window_min window_max a y).
Proof.
  intros Ha. unfold sample_column. apply fold_left_keeps; [|exact Ha].
  intros a' z Hz. apply sample_point_ok, in_range, Hz.
Qed.

Lemma sample_window_ok :
  sample_ok lo hi
    (sample_window ray_direction desk_min desk_max window_min window_max).
Proof.
  unfold sample_window. apply fold_left_keeps.
  - intros a y _. apply sample_column_ok.
  - left. repeat split.
Qed.

(** With an empty range of heights nothing is sampled. *)
Lemma sample_window_flat :
  (hi <= lo)%Z ->
  sample_window ray_direction desk_min desk_max window_min window_max
  = mkSample None None 0.
Proof.
  intros H. unfold sample_window.
  apply fold_left_keeps with (P := fun a => a = mkSample None None 0);
    [|reflexivity].
  intros a y _ ->. unfold sample_column.
  fold lo hi. rewrite (range_empty lo hi H). reflexivity.
Qed.

Lemma sample_point_seen (z0 y z : Z) (a : sample) :
  seen z0 a ->
  seen z0 (sample_point ray_direction desk_min desk_max window_min y a z).
Proof.
  intros (Hn & mx & Hmx & Hle). unfold sample_point.
  destruct (ray_intersects_cuboid _ _ _ _); [|split; eauto].
  split; simpl; [lia|]. rewrite Hmx. simpl. exists (Z.max mx z). split; [reflexivity|lia].
Qed.

Lemma sample_window_seen (y0 z0 : Z) :
  In y0 (range (vy window_min) (vy window_max)) ->
  In z0 (range lo hi) ->
  ray_intersects_cuboid (vecR (mkVec (vx window_min) y0 z0))
    ray_direction desk_min desk_max = true ->
  seen z0
    (sample_window ray_direction desk_min desk_max window_min window_max).
Proof.
  intros Hy Hz Hit. unfold sample_window.
  apply fold_left_reaches with (x0 := y0); [exact Hy| |].
  - intros a. unfold sample_column.
    apply fold_left_reaches with (x0 := z0); [exact Hz| |].
    + intros a'. unfold sample_point. rewrite Hit. split; simpl; [lia|].
      destruct (max_z a') as [m|]; simpl; eexists; (split; [reflexivity|lia]).
    + intros a' z. apply sample_point_seen.
  - intros a y Ha. unfold sample_column.
    apply fold_left_keeps; [|exact Ha].
    intros a' z _. apply sample_point_seen.
Qed.
End Sampling.

(** ** The shade state *)

Lemma unit_ratio (a h : Z) :
  (0 <= a <= h)%Z -> (0 < h)%Z -> 0 <= IZR a / IZR h <= 1.
Proof.
  intros [Ha Hah] Hh.
  apply IZR_le in Ha, Hah. apply IZR_lt in Hh.
  split.
  - apply Rmult_le_pos; [exact Ha|]. apply Rlt_le, Rinv_0_lt_compat, Hh.
  - apply Rmult_le_reg_r with (IZR h); [exact Hh|].
    unfold Rdiv. rewrite Rmult_assoc, Rinv_l by lra. lra.
Qed.

Lemma ratio_le (a b h : Z) :
  (a <= b)%Z -> (0 < h)%Z -> IZR a / IZR h <= IZR b / IZR h.
Proof.
  intros Hab Hh. apply IZR_le in Hab. apply IZR_lt in Hh.
  apply Rmult_le_compat_r; [|exact Hab].
  apply Rlt_le, Rinv_0_lt_compat, Hh.
Qed.

(** The shape of the result, read off the aggregates of the pass. *)
Lemma calculate_shading_requirements_cases
    (sun_position : sun) (desk_min desk_max : vec3 R)
    (window_min window_max : vec3 Z) (window_orientation : R) :
  let r := calculate_shading_requirements sun_position desk_min desk_max
             window_min window_max window_orientation in
  let h := (vz window_max - vz window_min)%Z in
  (shady_rays r = 0%nat /\ top_percent r = 0 /\ bottom_percent r = 0) \/
  ((0 < shady_rays r)%nat /\ (0 < h)%Z /\
   exists mn mx,
     (vz window_min <= mn <= mx)%Z /\ (mx < vz window_max)%Z /\
     top_percent r = IZR (vz window_max - mx) / IZR h /\
     bottom_percent r = IZR (vz window_max - mn) / IZR h).
Proof.
  intros r h. subst r h. unfold calculate_shading_requirements.
  set (acc := sample_window _ _ _ _ _).
  destruct (sample_window_ok
              (ray_direction_of
                 (radians (relative_azimuth_of sun_position))
                 (radians (elevation sun_position)))
              desk_min desk_max window_min window_max)
    as [(H0 & _ & _)|(Hpos & mn & mx & Hmn & Hmx & Hord & Hlt)];
    fold acc in H0 || fold acc in Hpos, Hmn, Hmx.
  - rewrite H0. simpl. left. repeat split.
  - destruct (Nat.eqb_spec (total_rays acc) 0) as [E|_]; [lia|].
    right. simpl. rewrite Hmn, Hmx.
    split; [exact Hpos|]. split; [lia|].
    exists mn, mx. repeat split; lia.
Qed.

Lemma shady_rays_sample
    (sun_position : sun) (desk_min desk_max : vec3 R)
    (window_min window_max : vec3 Z) (window_orientation : R) :
  shady_rays (calculate_shading_requirements sun_position desk_min desk_max
                window_min window_max window_orientation)
  = total_rays
      (sample_window
         (ray_direction_of (radians (relative_azimuth_of sun_position))
                           (radians (elevation sun_position)))
         desk_min desk_max window_min window_max).
Proof.
  unfold calculate_shading_requirements.
  destruct (Nat.eqb _ 0); reflexivity.
Qed.

Lemma percents_in_unit
    (sun_position : sun) (desk_min desk_max : vec3 R)
    (window_min window_max : vec3 Z) (window_orientation : R) :
  let r := calculate_shading_requirements sun_position desk_min desk_max
             window_min window_max window_orientation in
  0 <= top_percent r <= bottom_percent r /\ bottom_percent r <= 1.
Proof.
  intros r.
  destruct (calculate_shading_requirements_cases sun_position desk_min
              desk_max window_min window_max window_orientation)
    as [(_ & Ht & Hb)|(_ & Hh & mn & mx & Hord & Hlt & Ht & Hb)];
    fold r in Ht, Hb; rewrite Ht, Hb.
  - lra.
  - split; [split|].
    + apply unit_ratio; lia.
    + apply ratio_le; lia.
    + apply unit_ratio; lia.
Qed.

Lemma strict_ratio (a h : Z) :
  (0 < a < h)%Z -> 0 < IZR a / IZR h < 1.
Proof.
  intros [Ha Hah]. assert (Hh : (0 < h)%Z) by lia.
  apply IZR_lt in Ha, Hah, Hh.
  split.
  - apply Rdiv_lt_0_compat; assumption.
  - apply Rmult_lt_reg_r with (IZR h); [exact Hh|].
    unfold Rdiv. rewrite Rmult_assoc, Rinv_l by lra. lra.
Qed.

(** When some ray at height [z0] of the grid is obstructed, the top rail
    fraction is measured from a height at or above [z0]. *)
Lemma top_percent_seen
    (sun_position : sun) (desk_min desk_max : vec3 R)
    (window_min window_max : vec3 Z) (window_orientation : R) (y0 z0 : Z) :
  let d := ray_direction_of (radians (relative_azimuth_of sun_position))
                            (radians (elevation sun_position)) in
  let r := calculate_shading_requirements sun_position desk_min desk_max
             window_min window_max window_orientation in
  In y0 (range (vy window_min) (vy window_max)) ->
  In z0 (range (vz window_min) (vz window_max)) ->
  ray_intersects_cuboid (vecR (mkVec (vx window_min) y0 z0))
    d desk_min desk_max = true ->
  (0 < shady_rays r)%nat /\
  exists mx, (z0 <= mx < vz window_max)%Z /\
    top_percent r
    = IZR (vz window_max - mx) / IZR (vz window_max - vz window_min).
Proof.
  intros d r Hy Hz Hit.
  destruct (sample_window_seen d desk_min desk_max window_min window_max
              y0 z0 Hy Hz Hit) as (Hpos & mx & Hmx & Hle).
  destruct (sample_window_ok d desk_min desk_max window_min window_max)
    as [(H0 & _)|(_ & mn & mx' & _ & Hmx' & _ & Hlt)]; [lia|].
  rewrite Hmx in Hmx'. injection Hmx' as <-.
  subst r. unfold calculate_shading_requirements. fold d.
  destruct (Nat.eqb_spec (total_rays (sample_window d desk_min desk_max
                                        window_min window_max)) 0) as [E|_];
    [lia|].
  simpl. rewrite Hmx. split; [exact Hpos|].
  exists mx. split; [lia|reflexivity].
Qed.

(** With every ray of the grid missing the obstacle, the pass counts
    nothing. *)
Lemma sample_window_all_miss (d desk_min desk_max : vec3 R)
    (window_min window_max : vec3 Z) :
  (forall y z, ray_intersects_cuboid (vecR (mkVec (vx window_min) y z))
                 d desk_min desk_max = false) ->
  sample_window d desk_min desk_max window_min window_max
  = mkSample None None 0.
Proof.
  intros Hmiss. unfold sample_window.
  apply fold_left_keeps with (P := fun a => a = mkSample None None 0);
    [|reflexivity].
  intros a y _ ->. unfold sample_column.
  apply fold_left_keeps with (P := fun a => a = mkSample None None 0);
    [|reflexivity].
  intros a z _ ->. unfold sample_point. rewrite Hmiss. reflexivity.
Qed.

(** A ray that starts beyond the box on the x axis and moves further away
    misses it. *)
Lemma leaving_ray_misses (o d lo hi : vec3 R) :
  0 < vx d -> vx lo < vx o -> vx hi < vx o ->
  ray_intersects_cuboid o d lo hi = false.
Proof.
  intros Hd Hlo Hhi.
  unfold ray_intersects_cuboid, slab_loop, slab_step at 1. simpl idx.
  destruct (Reqb (vx d) 0) eqn:E; [apply Reqb_true in E; lra|clear E].
  assert (Hi : 0 < 1 / vx d) by (apply Rdiv_lt_0_compat; lra).
  assert (H1 : (vx lo - vx o) * (1 / vx d) < 0).
  { replace 0 with (0 * (1 / vx d)) by ring.
    apply Rmult_lt_compat_r; lra. }
  assert (H2 : (vx hi - vx o) * (1 / vx d) < 0).
  { replace 0 with (0 * (1 / vx d)) by ring.
    apply Rmult_lt_compat_r; lra. }
  cmp_cases; simpl; cmp_cases; simpl; try reflexivity; lra.
Qed.

(** ** Two sun positions and the rays they cast on [Window1] *)

Lemma sun_ahead_relative_azimuth : relative_azimuth_of sun_ahead = 0.
Proof.
  unfold relative_azimuth_of, sun_ahead, WINDOW_ORIENTATION. simpl.
  cmp_cases; lra.
Qed.

Lemma sun_ahead_direction :
  ray_direction_of (radians (relative_azimuth_of sun_ahead))
                   (radians (elevation sun_ahead))
  = mkVec (-1) 0 (- (1 / 2)).
Proof.
  rewrite sun_ahead_relative_azimuth. unfold ray_direction_of, radians.
  simpl elevation.
  replace (0 * PI / 180) with 0 by lra.
  replace (30 * PI / 180) with (PI / 6) by lra.
  rewrite cos_0, sin_0, sin_PI6. f_equal; lra.
Qed.

Lemma sun_behind_direction :
  vx (ray_direction_of (radians (relative_azimuth_of sun_behind))
                       (radians (elevation sun_behind))) = 1.
Proof.
  assert (E : relative_azimuth_of sun_behind = 180).
  { unfold relative_azimuth_of, sun_behind, WINDOW_ORIENTATION. simpl.
    cmp_cases; lra. }
  rewrite E. unfold ray_direction_of, radians. simpl.
  replace (180 * PI / 180) with PI by lra.
  rewrite cos_PI. lra.
Qed.

(** The ray from the grid point [(y, z) = (110, 89)] of [Window1] meets the
    desk, for instance at [t = 72]. *)
Lemma sun_ahead_hit :
  ray_intersects_cuboid (vecR (mkVec (vx (wmin Window1)) 110 89)%Z)
    (ray_direction_of (radians (relative_azimuth_of sun_ahead))
                      (radians (elevation sun_ahead)))
    (bmin DESK_BOUNDS) (bmax DESK_BOUNDS) = true.
Proof.
  rewrite sun_ahead_direction.
  apply reaches_intersects with (t := 72), in_box_reaches; [lra|].
  unfold in_box, point_at; simpl. lra.
Qed.

Lemma sun_behind_all_miss (y z : Z) :
  ray_intersects_cuboid (vecR (mkVec (vx (wmin Window1)) y z))
    (ray_direction_of (radians (relative_azimuth_of sun_behind))
                      (radians (elevation sun_behind)))
    (bmin DESK_BOUNDS) (bmax DESK_BOUNDS) = false.
Proof.
  apply leaving_ray_misses.
  - rewrite sun_behind_direction. lra.
  - simpl. lra.
  - simpl. lra.
Qed.

(** ** Zero rays, range of the fractions, flat windows *)

(** C1. When the sampling pass finds no obstructed ray, the shade state is
    [top_percent = 0] and [bottom_percent = 0], whatever the window
    geometry. *)
Theorem no_obstruction_fully_open
    (sun_position : sun) (desk_min desk_max : vec3 R)
    (window_min window_max : vec3 Z) (window_orientation : R) :
  let r := calculate_shading_requirements sun_position desk_min desk_max
             window_min window_max window_orientation in
  shady_rays r = 0%nat ->
  top_percent r = 0 /\ bottom_percent r = 0.
Proof.
  intros r H0.
  destruct (calculate_shading_requirements_cases sun_position desk_min
              desk_max window_min window_max window_orientation)
    as [(_ & Ht & Hb)|(Hpos & _)]; fold r in Ht, Hb || fold r in Hpos.
  - split; assumption.
  - lia.
Qed.

Lemma sun_behind_no_rays :
  shady_rays (calculate_shading_requirements sun_behind
                (bmin DESK_BOUNDS) (bmax DESK_BOUNDS)
                (wmin Window1) (wmax Window1) WINDOW_ORIENTATION) = 0%nat.
Proof.
  rewrite shady_rays_sample, sample_window_all_miss; [reflexivity|].
  apply sun_behind_all_miss.
Qed.

Lemma no_obstruction_fully_open_witness :
  let r := calculate_shading_requirements sun_behind
             (bmin DESK_BOUNDS) (bmax DESK_BOUNDS)
             (wmin Window1) (wmax Window1) WINDOW_ORIENTATION in
  shady_rays r = 0%nat /\ top_percent r = 0 /\ bottom_percent r = 0.
Proof.
  split; [exact sun_behind_no_rays|].
  exact (no_obstruction_fully_open sun_behind
           (bmin DESK_BOUNDS) (bmax DESK_BOUNDS)
           (wmin Window1) (wmax Window1) WINDOW_ORIENTATION
           sun_behind_no_rays).
Defined.

(** C2. With at least one obstructed sample, both returned fractions lie in
    the interval [0, 1]. *)
Theorem percents_between_0_and_1
    (sun_position : sun) (desk_min desk_max : vec3 R)
    (window_min window_max : vec3 Z) (window_orientation : R) :
  let r := calculate_shading_requirements sun_position desk_min desk_max
             window_min window_max window_orientation in
  (0 < shady_rays r)%nat ->
  0 <= top_percent r <= 1 /\ 0 <= bottom_percent r <= 1.
Proof.
  intros r _.
  destruct (percents_in_unit sun_position desk_min desk_max
              window_min window_max window_orientation) as [[H1 H2] H3].
  fold r in H1, H2, H3. lra.
Qed.

Lemma sun_ahead_some_rays :
  (0 < shady_rays (calculate_shading_requirements sun_ahead
                     (bmin DESK_BOUNDS) (bmax DESK_BOUNDS)
                     (wmin Window1) (wmax Window1) WINDOW_ORIENTATION))%nat.
Proof.
  apply (top_percent_seen sun_ahead (bmin DESK_BOUNDS) (bmax DESK_BOUNDS)
           (wmin Window1) (wmax Window1) WINDOW_ORIENTATION 110 89).
  - apply in_range. simpl. lia.
  - apply in_range. simpl. lia.
  - exact sun_ahead_hit.
Qed.

Lemma percents_between_0_and_1_witness :
  let r := calculate_shading_requirements sun_ahead
             (bmin DESK_BOUNDS) (bmax DESK_BOUNDS)
             (wmin Window1) (wmax Window1) WINDOW_ORIENTATION in
  (0 < shady_rays r)%nat /\
  0 <= top_percent r <= 1 /\ 0 <= bottom_percent r <= 1.
Proof.
  split; [exact sun_ahead_some_rays|].
  exact (percents_between_0_and_1 sun_ahead
           (bmin DESK_BOUNDS) (bmax DESK_BOUNDS)
           (wmin Window1) (wmax Window1) WINDOW_ORIENTATION
           sun_ahead_some_rays).
Defined.

(** A window of height zero or less: the range of heights is empty, nothing
    is sampled, and the tuple of the "no rays" branch is returned. *)
Lemma flat_window_result
    (sun_position : sun) (desk_min desk_max : vec3 R)
    (window_min window_max : vec3 Z) (window_orientation : R) :
  (vz window_max - vz window_min <= 0)%Z ->
  calculate_shading_requirements sun_position desk_min desk_max
    window_min window_max window_orientation
  = mkShading 0 0 0 (relative_azimuth_of sun_position)
              (elevation sun_position).
Proof.
  intros H. unfold calculate_shading_requirements.
  rewrite sample_window_flat by lia. reflexivity.
Qed.

(** C3, as the specification states it, fails: for a window of height 0 the
    call returns a numeric shade state and raises nothing. *)
Lemma flat_window_raises_nothing :
  (vz flat_window_max - vz (wmin Window1) <= 0)%Z /\
  call_calculate_shading_requirements sun_ahead
    (bmin DESK_BOUNDS) (bmax DESK_BOUNDS)
    (wmin Window1) flat_window_max WINDOW_ORIENTATION
  <> Raises InvalidGeometry /\
  exists r,
    call_calculate_shading_requirements sun_ahead
      (bmin DESK_BOUNDS) (bmax DESK_BOUNDS)
      (wmin Window1) flat_window_max WINDOW_ORIENTATION = Returns r /\
    top_percent r = 0 /\ bottom_percent r = 0 /\ shady_rays r = 0%nat.
Proof.
  split; [simpl; lia|]. split; [discriminate|].
  unfold call_calculate_shading_requirements.
  rewrite flat_window_result by (simpl; lia).
  eexists; split; [reflexivity|]. repeat split.
Qed.

(** C3, amended. When the window height is zero or less the call raises no
    error: no ray is sampled and it returns [top_percent = 0],
    [bottom_percent = 0] and a ray count of 0, with the relative azimuth and
    the elevation of the sun. *)
Theorem flat_window_returns_open
    (sun_position : sun) (desk_min desk_max : vec3 R)
    (window_min window_max : vec3 Z) (window_orientation : R) :
  (vz window_max - vz window_min <= 0)%Z ->
  call_calculate_shading_requirements sun_position desk_min desk_max
    window_min window_max window_orientation
  = Returns (mkShading 0 0 0 (relative_azimuth_of sun_position)
                       (elevation sun_position)).
Proof.
  intros H. unfold call_calculate_shading_requirements.
  rewrite flat_window_result by exact H. reflexivity.
Qed.

Lemma flat_window_returns_open_witness :
  (vz flat_window_max - vz (wmin Window1) <= 0)%Z /\
  call_calculate_shading_requirements sun_ahead
    (bmin DESK_BOUNDS) (bmax DESK_BOUNDS)
    (wmin Window1) flat_window_max WINDOW_ORIENTATION
  = Returns (mkShading 0 0 0 (relative_azimuth_of sun_ahead)
                       (elevation sun_ahead)).
Proof.
  assert (H : (vz flat_window_max - vz (wmin Window1) <= 0)%Z)
    by (simpl; lia).
  split; [exact H|].
  exact (flat_window_returns_open sun_ahead
           (bmin DESK_BOUNDS) (bmax DESK_BOUNDS)
           (wmin Window1) flat_window_max WINDOW_ORIENTATION H).
Defined.

(** ** Relative azimuth *)

Lemma relative_azimuth_result
    (sun_position : sun) (desk_min desk_max : vec3 R)
    (window_min window_max : vec3 Z) (window_orientation : R) :
  relative_azimuth
    (calculate_shading_requirements sun_position desk_min desk_max
       window_min window_max window_orientation)
  = relative_azimuth_of sun_position.
Proof.
  unfold calculate_shading_requirements.
  destruct (Nat.eqb _ 0); reflexivity.
Qed.

Lemma Int_part_unit (x : R) : 0 <= x < 1 -> Int_part x = 0%Z.
Proof. intros H. symmetry. apply Int_part_spec. simpl. lra. Qed.

Lemma Int_part_neg_unit (x : R) : -1 <= x < 0 -> Int_part x = (-1)%Z.
Proof. intros H. symmetry. apply Int_part_spec. simpl. lra. Qed.

Lemma Rmod_360_neg (x : R) : -360 <= x < 0 -> Rmod x 360 = x + 360.
Proof.
  intros H. unfold Rmod. rewrite Int_part_neg_unit; [simpl; lra|].
  split.
  - apply Rmult_le_reg_r with 360; [lra|]. unfold Rdiv.
    rewrite Rmult_assoc, Rinv_l by lra. lra.
  - apply Rmult_lt_reg_r with 360; [lra|]. unfold Rdiv.
    rewrite Rmult_assoc, Rinv_l by lra. lra.
Qed.

(** C6. The code breaks the statement on the [window_orientation] it is
    given: for azimuth 10 and orientation 20 the statement asks for
    [(10 - 20) mod 360 = 350], and the code, which subtracts the module
    constant 150 and not its argument, returns [10 - 150 + 360 = 220]. *)
Theorem relative_azimuth_reads_constant :
  let r := calculate_shading_requirements (mkSun 10 30)
             (bmin DESK_BOUNDS) (bmax DESK_BOUNDS)
             (wmin Window1) (wmax Window1) 20 in
  relative_azimuth r = 220 /\
  Rmod (10 - 20) 360 = 350 /\
  relative_azimuth r <> Rmod (10 - 20) 360.
Proof.
  intros r. subst r. rewrite relative_azimuth_result.
  assert (E : relative_azimuth_of (mkSun 10 30) = 220).
  { unfold relative_azimuth_of, WINDOW_ORIENTATION. simpl.
    cmp_cases; lra. }
  assert (M : Rmod (10 - 20) 360 = 350).
  { rewrite Rmod_360_neg by lra. lra. }
  rewrite E, M. split; [reflexivity|]. split; [reflexivity|]. lra.
Qed.

(** On binary64 the single wrap can also land on 360 itself: for the
    azimuth next below 150 the difference is [-2.8e-14], and adding 360
    rounds to [360.0]. *)
Lemma relative_azimuth_f64_reaches_360 :
  PrimFloat.ltb (0x1.2bfffffffffffp+7)%float 150%float = true /\
  PrimFloat.eqb (relative_azimuth_f64 (0x1.2bfffffffffffp+7)%float) 360%float
  = true.
Proof. split; vm_compute; reflexivity. Qed.

(** ** Order of the two fractions *)

(** C7, as the specification states it, fails: no input makes the code
    return [top_percent > bottom_percent] with an obstructed ray. *)
Lemma top_never_exceeds_bottom :
  ~ exists (sun_position : sun) (desk_min desk_max : vec3 R)
           (window_min window_max : vec3 Z) (window_orientation : R),
      let r := calculate_shading_requirements sun_position desk_min desk_max
                 window_min window_max window_orientation in
      (0 < shady_rays r)%nat /\ top_percent r > bottom_percent r.
Proof.
  intros (s & dmin & dmax & wlo & whi & o & _ & Hgt).
  destruct (percents_in_unit s dmin dmax wlo whi o) as [[_ Hle] _].
  lra.
Qed.

(** C7, amended. For every input the returned fractions are ordered:
    [top_percent <= bottom_percent]. *)
Theorem top_le_bottom
    (sun_position : sun) (desk_min desk_max : vec3 R)
    (window_min window_max : vec3 Z) (window_orientation : R) :
  let r := calculate_shading_requirements sun_position desk_min desk_max
             window_min window_max window_orientation in
  top_percent r <= bottom_percent r.
Proof.
  intros r.
  destruct (percents_in_unit sun_position desk_min desk_max
              window_min window_max window_orientation) as [[_ Hle] _].
  exact Hle.
Qed.

(** ** The reference scenario *)

(** C8. Desk [(72,108,30)-(110,132,54)], window [(148,98,44)-(148,126,90)],
    azimuth 150 and elevation 30: the relative azimuth is 0, the ray
    direction is [(-1, 0, -1/2)], some ray of the grid meets the desk, and
    [top_percent] lies strictly between 0 and 1. *)
Theorem reference_scenario :
  let desk_min := mkVec 72 108 30 in
  let desk_max := mkVec 110 132 54 in
  let window_min := (mkVec 148 98 44)%Z in
  let window_max := (mkVec 148 126 90)%Z in
  let sun_position := mkSun 150 30 in
  let r := calculate_shading_requirements sun_position desk_min desk_max
             window_min window_max WINDOW_ORIENTATION in
  let d := ray_direction_of (radians (relative_azimuth r))
                            (radians (sun_elevation r)) in
  relative_azimuth r = 0 /\
  d = mkVec (-1) 0 (- (1 / 2)) /\
  (exists y z,
     In y (range (vy window_min) (vy window_max)) /\
     In z (range (vz window_min) (vz window_max)) /\
     ray_intersects_cuboid (vecR (mkVec (vx window_min) y z)) d
       desk_min desk_max = true) /\
  (0 < shady_rays r)%nat /\
  0 < top_percent r < 1.
Proof.
  intros desk_min desk_max window_min window_max sun_position r d.
  assert (Edesk : desk_min = bmin DESK_BOUNDS /\ desk_max = bmax DESK_BOUNDS).
  { unfold desk_min, desk_max, DESK_BOUNDS; simpl. split; f_equal; lra. }
  destruct Edesk as [Emin Emax].
  assert (Eaz : relative_azimuth r = 0).
  { unfold r. rewrite relative_azimuth_result.
    exact sun_ahead_relative_azimuth. }
  assert (Eel : sun_elevation r = elevation sun_position).
  { unfold r, calculate_shading_requirements.
    destruct (Nat.eqb _ 0); reflexivity. }
  assert (Ed : d = ray_direction_of
                     (radians (relative_azimuth_of sun_ahead))
                     (radians (elevation sun_ahead))).
  { unfold d. rewrite Eaz, Eel, sun_ahead_relative_azimuth. reflexivity. }
  assert (Hy : In 110%Z (range (vy window_min) (vy window_max)))
    by (apply in_range; simpl; lia).
  assert (Hz : In 89%Z (range (vz window_min) (vz window_max)))
    by (apply in_range; simpl; lia).
  assert (Hit : ray_intersects_cuboid (vecR (mkVec (vx window_min) 110 89)%Z)
                  d desk_min desk_max = true).
  { rewrite Ed, Emin, Emax. exact sun_ahead_hit. }
  split; [exact Eaz|]. split; [rewrite Ed; exact sun_ahead_direction|].
  split; [exists 110%Z, 89%Z; auto|].
  rewrite Ed in Hit.
  destruct (top_percent_seen sun_position desk_min desk_max
              window_min window_max WINDOW_ORIENTATION 110 89 Hy Hz Hit)
    as (Hpos & mx & Hmx & Htop).
  split; [exact Hpos|]. fold r in Htop. rewrite Htop.
  apply strict_ratio. unfold window_max, window_min in *.
  cbn [vz] in Hmx |- *. lia.
Qed.

(** ** The unused orientation parameter *)

(** C9. The result does not depend on the [window_orientation] argument:
    two calls that differ only in it return the same tuple. *)
Theorem window_orientation_ignored
    (sun_position : sun) (desk_min desk_max : vec3 R)
    (window_min window_max : vec3 Z) (orientation1 orientation2 : R) :
  calculate_shading_requirements sun_position desk_min desk_max
    window_min window_max orientation1
  = calculate_shading_requirements sun_position desk_min desk_max
      window_min window_max orientation2.
Proof. reflexivity. Qed.

(** ** The published mapping *)

Lemma py_int_nonneg (x : R) : 0 <= x -> py_int x = Int_part x.
Proof. intros H. unfold py_int. destruct (Rle_dec 0 x); [reflexivity|lra]. Qed.

Lemma Int_part_percent (x : R) :
  0 <= x <= 1 -> (0 <= Int_part (x * 100) <= 100)%Z.
Proof.
  intros H. destruct (base_Int_part (x * 100)) as [Hle Hgt]. split.
  - assert (Hlt : IZR (-1) < IZR (Int_part (x * 100))) by lra.
    apply lt_IZR in Hlt. lia.
  - apply le_IZR. lra.
Qed.

Lemma window_shade_position_spec (sun_pos : sun) (bounds : window) :
  let r := calculate_shading_requirements sun_pos
             (bmin DESK_BOUNDS) (bmax DESK_BOUNDS)
             (wmin bounds) (wmax bounds) WINDOW_ORIENTATION in
  let p := window_shade_position sun_pos bounds in
  top p = Int_part (top_percent r * 100) /\
  bottom p = (100 - Int_part (bottom_percent r * 100))%Z /\
  (0 <= top p <= 100)%Z /\ (0 <= bottom p <= 100)%Z /\
  (shady_rays r = 0%nat -> top p = 0%Z /\ bottom p = 100%Z).
Proof.
  intros r p.
  destruct (percents_in_unit sun_pos (bmin DESK_BOUNDS) (bmax DESK_BOUNDS)
              (wmin bounds) (wmax bounds) WINDOW_ORIENTATION)
    as [[H0 Hle] H1]. fold r in H0, Hle, H1.
  assert (Et : top p = Int_part (top_percent r * 100)).
  { unfold p, window_shade_position. fold r. simpl.
    apply py_int_nonneg. lra. }
  assert (Eb : bottom p = (100 - Int_part (bottom_percent r * 100))%Z).
  { unfold p, window_shade_position. fold r. simpl.
    rewrite py_int_nonneg by lra. reflexivity. }
  assert (Bt : (0 <= Int_part (top_percent r * 100) <= 100)%Z)
    by (apply Int_part_percent; lra).
  assert (Bb : (0 <= Int_part (bottom_percent r * 100) <= 100)%Z)
    by (apply Int_part_percent; lra).
  split; [exact Et|]. split; [exact Eb|].
  rewrite Et, Eb. split; [exact Bt|]. split; [lia|].
  intros Hn.
  destruct (calculate_shading_requirements_cases sun_pos
              (bmin DESK_BOUNDS) (bmax DESK_BOUNDS)
              (wmin bounds) (wmax bounds) WINDOW_ORIENTATION)
    as [(_ & Ht & Hb)|(Hpos & _)]; fold r in Ht, Hb || fold r in Hpos;
    [|lia].
  rewrite Ht, Hb, Int_part_unit by lra. split; reflexivity.
Qed.

(** C10. In the published mapping, [top] is the floor of
    [top_percent * 100] and [bottom] is 100 minus the floor of
    [bottom_percent * 100]; both are integers in [0, 100]; and a window
    without obstructed rays is published as [top = 0], [bottom = 100]. *)
Theorem published_positions
    (sun_pos : sun) (window_name : string) (bounds : window) :
  In (window_name, bounds) WINDOW_BOUNDS ->
  let r := calculate_shading_requirements sun_pos
             (bmin DESK_BOUNDS) (bmax DESK_BOUNDS)
             (wmin bounds) (wmax bounds) WINDOW_ORIENTATION in
  exists p,
    dict_get window_name (calculate_current_shade_positions sun_pos)
    = Some p /\
    top p = Int_part (top_percent r * 100) /\
    bottom p = (100 - Int_part (bottom_percent r * 100))%Z /\
    (0 <= top p <= 100)%Z /\ (0 <= bottom p <= 100)%Z /\
    (shady_rays r = 0%nat -> top p = 0%Z /\ bottom p = 100%Z).
Proof.
  intros Hin r. exists (window_shade_position sun_pos bounds).
  split; [|apply window_shade_position_spec].
  destruct Hin as [E|[E|[]]]; injection E as <- <-; reflexivity.
Qed.

Lemma published_positions_witness :
  In ("Window1"%string, Window1) WINDOW_BOUNDS /\
  let r := calculate_shading_requirements sun_behind
             (bmin DESK_BOUNDS) (bmax DESK_BOUNDS)
             (wmin Window1) (wmax Window1) WINDOW_ORIENTATION in
  exists p,
    dict_get "Window1" (calculate_current_shade_positions sun_behind)
    = Some p /\
    top p = Int_part (top_percent r * 100) /\
    bottom p = (100 - Int_part (bottom_percent r * 100))%Z /\
    (0 <= top p <= 100)%Z /\ (0 <= bottom p <= 100)%Z /\
    (shady_rays r = 0%nat -> top p = 0%Z /\ bottom p = 100%Z).
Proof.
  assert (H : In ("Window1"%string, Window1) WINDOW_BOUNDS)
    by (left; reflexivity).
  split; [exact H|].
  exact (published_positions sun_behind "Window1" Window1 H).
Defined.

(** * Further properties of the code *)

(** ** The slab test decides whether the forward ray meets the box *)

Lemma param_between (lo hi o d t : R) :
  d <> 0 ->
  between lo (o + t * d) hi <->
  between ((lo - o) * (1 / d)) t ((hi - o) * (1 / d)).
Proof.
  intros Hd. unfold between.
  assert (E1 : (lo - o) * (1 / d) * d = lo - o) by (field; exact Hd).
  assert (E2 : (hi - o) * (1 / d) * d = hi - o) by (field; exact Hd).
  set (t1 := (lo - o) * (1 / d)) in *. set (t2 := (hi - o) * (1 / d)) in *.
  destruct (Rlt_dec 0 d) as [Hp|Hn].
  - split; intros [[H1 H2]|[H1 H2]]; [left|right|left|right]; split; nra.
  - assert (Hneg : d < 0) by lra.
    split; intros [[H1 H2]|[H1 H2]]; [right|left|right|left]; split; nra.
Qed.

Lemma near_update (a : R) (t_near : option R) :
  exists n, (if gt_near a t_near then Some a else t_near) = Some n /\
            a <= n /\
            match t_near with Some m => m <= n | None => True end.
Proof.
  destruct t_near as [m|]; unfold gt_near.
  - cmp_cases; eexists; (split; [reflexivity|]); lra.
  - exists a. split; [reflexivity|]. split; [lra|exact I].
Qed.

Lemma far_update (b : R) (t_far : option R) :
  exists f, (if lt_far b t_far then Some b else t_far) = Some f /\
            f <= b /\
            match t_far with Some m => f <= m | None => True end.
Proof.
  destruct t_far as [m|]; unfold lt_far.
  - cmp_cases; eexists; (split; [reflexivity|]); lra.
  - exists b. split; [reflexivity|]. split; [lra|exact I].
Qed.

(** A step that does not return [False] narrows the interval, keeps it
    inhabited by some [t >= 0], and every [t] left in it satisfies the
    demand of the axis. *)
Lemma slab_step_sound (o d lo hi : vec3 R) (s s' : slab) (i : nat) :
  slab_step o d lo hi s i = Some s' ->
  (exists t, 0 <= t /\ brackets s t) ->
  (exists t, 0 <= t /\ brackets s' t) /\
  (forall t, brackets s' t -> brackets s t /\ slab_holds o d lo hi t i).
Proof.
  destruct s as [t_near t_far]. unfold slab_step.
  destruct (Reqb (idx d i) 0) eqn:Ed.
  - apply Reqb_true in Ed.
    destruct (Rltb (idx o i) (idx lo i)) eqn:E1; [discriminate|].
    destruct (Rgtb (idx o i) (idx hi i)) eqn:E2; [discriminate|].
    apply Rltb_false in E1. apply Rgtb_false in E2. simpl.
    intros [= <-] Hfeas. split; [exact Hfeas|].
    intros t Ht. split; [exact Ht|]. left. split; [exact Ed|lra].
  - apply Reqb_false in Ed.
    set (t1 := (idx lo i - idx o i) * (1 / idx d i)).
    set (t2 := (idx hi i - idx o i) * (1 / idx d i)).
    assert (Hsw : exists a b,
               (if Rgtb t1 t2 then (t2, t1) else (t1, t2)) = (a, b) /\
               forall t, a <= t <= b -> between t1 t t2).
    { unfold between. cmp_cases; eexists; eexists;
        (split; [reflexivity|]); intros t Ht; lra. }
    destruct Hsw as (a & b & -> & Hab).
    destruct (near_update a t_near) as (n & -> & Han & Hn).
    destruct (far_update b t_far) as (f & -> & Hfb & Hf).
    simpl.
    destruct (Rgtb n f) eqn:E1; [discriminate|].
    destruct (Rltb f 0) eqn:E2; [discriminate|].
    apply Rgtb_false in E1. apply Rltb_false in E2. simpl.
    intros [= <-] _. split.
    + exists (Rmax n 0). split; [apply Rmax_r|]. split; simpl.
      * apply Rmax_l.
      * apply Rmax_lub; assumption.
    + intros t [Hnt Hft]. simpl in Hnt, Hft. split.
      * split; simpl.
        -- destruct t_near; [lra|exact I].
        -- destruct t_far; [lra|exact I].
      * right. split; [exact Ed|].
        apply param_between; [exact Ed|]. apply Hab. lra.
Qed.

Lemma slab_loop_sound (o d lo hi : vec3 R) (axes : list nat) :
  forall s,
    (exists t, 0 <= t /\ brackets s t) ->
    slab_loop o d lo hi s axes = true ->
    exists t, 0 <= t /\ brackets s t /\
              forall i, In i axes -> slab_holds o d lo hi t i.
Proof.
  induction axes as [|i rest IH]; intros s Hfeas Hrun; simpl in Hrun.
  - destruct Hfeas as (t & Ht & Hb). exists t.
    split; [exact Ht|]. split; [exact Hb|]. intros i [].
  - destruct (slab_step o d lo hi s i) as [s'|] eqn:Es; [|discriminate].
    destruct (slab_step_sound o d lo hi s s' i Es Hfeas) as [Hfeas' Hnarrow].
    destruct (IH s' Hfeas' Hrun) as (t & Ht & Hb & Hrest).
    destruct (Hnarrow t Hb) as [Hbs Hi].
    exists t. split; [exact Ht|]. split; [exact Hbs|].
    intros j [<-|Hj]; [exact Hi|apply Hrest, Hj].
Qed.

(** The converse step: a [t >= 0] that satisfies the demand of the axis and
    lies in the interval survives the step. *)
Lemma slab_step_complete (o d lo hi : vec3 R) (t : R) (s : slab) (i : nat) :
  0 <= t -> slab_holds o d lo hi t i -> brackets s t ->
  exists s', slab_step o d lo hi s i = Some s' /\ brackets s' t.
Proof.
  intros Ht Hi [Hn Hf]. destruct s as [t_near t_far]; simpl in Hn, Hf.
  unfold slab_step. destruct Hi as [[Ed Hin]|[Ed Hbt]].
  - destruct (Reqb (idx d i) 0) eqn:E;
      [|apply Reqb_false in E; contradiction].
    cmp_cases; simpl; try lra.
    eexists; split; [reflexivity|]. split; assumption.
  - destruct (Reqb (idx d i) 0) eqn:E;
      [apply Reqb_true in E; contradiction|].
    apply param_between in Hbt; [|exact Ed].
    set (t1 := (idx lo i - idx o i) * (1 / idx d i)) in *.
    set (t2 := (idx hi i - idx o i) * (1 / idx d i)) in *.
    assert (Hsw : exists a b,
               (if Rgtb t1 t2 then (t2, t1) else (t1, t2)) = (a, b) /\
               a <= t <= b).
    { unfold between in Hbt.
      cmp_cases; eexists; eexists; (split; [reflexivity|]); lra. }
    destruct Hsw as (a & b & -> & Ha & Hb).
    destruct (near_update a t_near) as (n & En & Han & Hn').
    destruct (far_update b t_far) as (f & Ef & Hfb & Hf').
    assert (Hnt : n <= t).
    { unfold gt_near in En. destruct t_near as [m|].
      - destruct (Rgtb a m); injection En as <-; assumption.
      - injection En as <-. exact Ha. }
    assert (Hft : t <= f).
    { unfold lt_far in Ef. destruct t_far as [m|].
      - destruct (Rltb b m); injection Ef as <-; assumption.
      - injection Ef as <-. exact Hb. }
    rewrite En, Ef. simpl.
    cmp_cases; simpl; try lra.
    eexists; split; [reflexivity|]. split; simpl; assumption.
Qed.

Lemma slab_loop_complete (o d lo hi : vec3 R) (t : R) (axes : list nat) :
  0 <= t ->
  (forall i, In i axes -> slab_holds o d lo hi t i) ->
  forall s, brackets s t -> slab_loop o d lo hi s axes = true.
Proof.
  intros Ht. induction axes as [|i rest IH]; intros Hall s Hs; simpl.
  - reflexivity.
  - destruct (slab_step_complete o d lo hi t s i Ht
                (Hall i (or_introl eq_refl)) Hs) as (s' & -> & Hs').
    apply IH; [|exact Hs']. intros j Hj. apply Hall. right; exact Hj.
Qed.

(** The test on any box, valid or not. *)
Lemma ray_intersects_cuboid_iff (o d lo hi : vec3 R) :
  ray_intersects_cuboid o d lo hi = true <->
  exists t, 0 <= t /\ forall i, slab_holds o d lo hi t i.
Proof.
  unfold ray_intersects_cuboid. split.
  - intros Hrun.
    destruct (slab_loop_sound o d lo hi [0; 1; 2]%nat (None, None))
      as (t & Ht & _ & Hall); [exists 0; split; [lra|split; exact I]|exact Hrun|].
    exists t. split; [exact Ht|].
    intros [|[|[|i]]].
    + apply Hall. simpl; auto.
    + apply Hall. simpl; auto.
    + apply Hall. simpl; auto.
    + assert (H2 := Hall 2%nat). unfold slab_holds in *. simpl in *.
      apply H2. auto.
  - intros (t & Ht & Hall).
    apply slab_loop_complete with (t := t); [exact Ht| |split; exact I].
    intros i _. apply Hall.
Qed.

Lemma slab_holds_in_box (o d lo hi : vec3 R) (t : R) :
  valid_box lo hi ->
  (forall i, slab_holds o d lo hi t i) ->
  in_box (point_at o d t) lo hi.
Proof.
  intros (Vx & Vy & Vz) Hall. unfold in_box, point_at. simpl.
  assert (Hx := Hall 0%nat). assert (Hy := Hall 1%nat).
  assert (Hz := Hall 2%nat).
  unfold slab_holds, between in Hx, Hy, Hz. simpl in Hx, Hy, Hz.
  repeat split.
  - destruct Hx as [[E H]|[_ [H|H]]]; [rewrite E|..]; lra.
  - destruct Hx as [[E H]|[_ [H|H]]]; [rewrite E|..]; lra.
  - destruct Hy as [[E H]|[_ [H|H]]]; [rewrite E|..]; lra.
  - destruct Hy as [[E H]|[_ [H|H]]]; [rewrite E|..]; lra.
  - destruct Hz as [[E H]|[_ [H|H]]]; [rewrite E|..]; lra.
  - destruct Hz as [[E H]|[_ [H|H]]]; [rewrite E|..]; lra.
Qed.

Lemma valid_box_hit_point (o d lo hi : vec3 R) :
  valid_box lo hi ->
  ray_intersects_cuboid o d lo hi = true ->
  exists t, 0 <= t /\ in_box (point_at o d t) lo hi.
Proof.
  intros Hv Hrun. apply ray_intersects_cuboid_iff in Hrun.
  destruct Hrun as (t & Ht & Hall). exists t. split; [exact Ht|].
  apply slab_holds_in_box; assumption.
Qed.

Lemma desk_valid_box : valid_box (bmin DESK_BOUNDS) (bmax DESK_BOUNDS).
Proof. unfold valid_box; simpl; lra. Qed.

Lemma not_true_false (b : bool) : (b = true -> False) -> b = false.
Proof. destruct b; [intros H; destruct (H eq_refl)|reflexivity]. Qed.

Lemma bool_eq_iff (a b : bool) : (a = true <-> b = true) -> a = b.
Proof. destruct a, b; intros [H1 H2]; auto; symmetry; auto. Qed.

Lemma idx_vecR (v : vec3 Z) (i : nat) : idx (vecR v) i = IZR (idx v i).
Proof. destruct i as [|[|i]]; reflexivity. Qed.

(** X2. With integer coordinates for the origin and the box, as every call
    of the program has, a ray that starts beyond both faces of an axis and
    moves further away along that axis misses the box, whatever the other
    axes say. *)
Theorem receding_ray_misses
    (ray_origin cuboid_min cuboid_max : vec3 Z) (ray_direction : vec3 R)
    (i : nat) :
  (0 < idx ray_direction i /\
   (idx cuboid_min i < idx ray_origin i)%Z /\
   (idx cuboid_max i < idx ray_origin i)%Z) \/
  (idx ray_direction i < 0 /\
   (idx ray_origin i < idx cuboid_min i)%Z /\
   (idx ray_origin i < idx cuboid_max i)%Z) ->
  ray_intersects_cuboid (vecR ray_origin) ray_direction
    (vecR cuboid_min) (vecR cuboid_max) = false.
Proof.
  intros H. apply not_true_false. intros Hrun.
  apply ray_intersects_cuboid_iff in Hrun. destruct Hrun as (t & Ht & Hall).
  specialize (Hall i). unfold slab_holds, between in Hall.
  rewrite !idx_vecR in Hall.
  destruct H as [(Hd & H1 & H2)|(Hd & H1 & H2)];
    apply IZR_lt in H1, H2;
    destruct Hall as [[E _]|[_ [Hb|Hb]]]; try lra; nra.
Qed.

(** The grid point [(148, 100, 60)] of [Window1], the integer desk of the
    configuration, and a ray moving towards lower [y] from below the desk's
    [y] range. *)
Lemma receding_ray_misses_witness :
  ((0 < idx (mkVec (-1) (-2) 0) 1 /\
    (idx (mkVec 72 108 30) 1 < idx (mkVec 148 100 60) 1)%Z /\
    (idx (mkVec 110 132 54) 1 < idx (mkVec 148 100 60) 1)%Z) \/
   (idx (mkVec (-1) (-2) 0) 1 < 0 /\
    (idx (mkVec 148 100 60) 1 < idx (mkVec 72 108 30) 1)%Z /\
    (idx (mkVec 148 100 60) 1 < idx (mkVec 110 132 54) 1)%Z)) /\
  ray_intersects_cuboid (vecR (mkVec 148 100 60)%Z) (mkVec (-1) (-2) 0)
    (vecR (mkVec 72 108 30)%Z) (vecR (mkVec 110 132 54)%Z) = false.
Proof.
  assert (H : (0 < idx (mkVec (-1) (-2) 0) 1 /\
               (idx (mkVec 72 108 30) 1 < idx (mkVec 148 100 60) 1)%Z /\
               (idx (mkVec 110 132 54) 1 < idx (mkVec 148 100 60) 1)%Z) \/
              (idx (mkVec (-1) (-2) 0) 1 < 0 /\
               (idx (mkVec 148 100 60) 1 < idx (mkVec 72 108 30) 1)%Z /\
               (idx (mkVec 148 100 60) 1 < idx (mkVec 110 132 54) 1)%Z)).
  { right. simpl. split; [lra|lia]. }
  split; [exact H|].
  exact (receding_ray_misses (mkVec 148 100 60)%Z (mkVec 72 108 30)%Z
           (mkVec 110 132 54)%Z (mkVec (-1) (-2) 0) 1 H).
Defined.

(** X3. A ray parallel to an axis whose origin lies outside [min, max] on
    that axis misses the box. *)
Theorem parallel_outside_misses
    (ray_origin ray_direction cuboid_min cuboid_max : vec3 R) (i : nat) :
  idx ray_direction i = 0 ->
  idx ray_origin i < idx cuboid_min i \/ idx cuboid_max i < idx ray_origin i ->
  ray_intersects_cuboid ray_origin ray_direction cuboid_min cuboid_max = false.
Proof.
  intros Hd Hout. apply not_true_false. intros Hrun.
  apply ray_intersects_cuboid_iff in Hrun. destruct Hrun as (t & Ht & Hall).
  specialize (Hall i). unfold slab_holds in Hall.
  destruct Hall as [[_ Hin]|[Hne _]]; [lra|contradiction].
Qed.

Lemma parallel_outside_misses_witness :
  idx (mkVec (-1) 0 (- (1 / 2))) 1 = 0 /\
  (idx (mkVec 148 98 60) 1 < idx (bmin DESK_BOUNDS) 1 \/
   idx (bmax DESK_BOUNDS) 1 < idx (mkVec 148 98 60) 1) /\
  ray_intersects_cuboid (mkVec 148 98 60) (mkVec (-1) 0 (- (1 / 2)))
    (bmin DESK_BOUNDS) (bmax DESK_BOUNDS) = false.
Proof.
  assert (H : idx (mkVec 148 98 60) 1 < idx (bmin DESK_BOUNDS) 1 \/
              idx (bmax DESK_BOUNDS) 1 < idx (mkVec 148 98 60) 1).
  { left. simpl. lra. }
  split; [reflexivity|]. split; [exact H|].
  exact (parallel_outside_misses (mkVec 148 98 60) (mkVec (-1) 0 (- (1 / 2)))
           (bmin DESK_BOUNDS) (bmax DESK_BOUNDS) 1 eq_refl H).
Defined.

Lemma idx_shift (v p : vec3 R) (i : nat) :
  idx (shift v p) i = idx p i + idx v i.
Proof. destruct i as [|[|i]]; reflexivity. Qed.

(** X5. The answer depends only on the position of the box relative to the
    origin of the ray: moving origin and box by the same vector does not
    change it. *)
Theorem ray_intersects_cuboid_shift
    (ray_origin ray_direction cuboid_min cuboid_max v : vec3 R) :
  ray_intersects_cuboid (shift v ray_origin) ray_direction
    (shift v cuboid_min) (shift v cuboid_max)
  = ray_intersects_cuboid ray_origin ray_direction cuboid_min cuboid_max.
Proof.
  apply bool_eq_iff. rewrite !ray_intersects_cuboid_iff.
  assert (Hs : forall t i,
             slab_holds (shift v ray_origin) ray_direction
               (shift v cuboid_min) (shift v cuboid_max) t i
             <-> slab_holds ray_origin ray_direction cuboid_min cuboid_max t i).
  { intros t i. unfold slab_holds, between. rewrite !idx_shift.
    split; (intros [[E H]|[E H]]; [left|right]; split; try assumption);
      lra. }
  split; intros (t & Ht & Hall); exists t; (split; [exact Ht|]);
    intros i; apply Hs, Hall.
Qed.

(** X6. Enlarging a valid box never loses an intersection. *)
Theorem ray_intersects_cuboid_monotone
    (ray_origin ray_direction cuboid_min cuboid_max outer_min outer_max
     : vec3 R) :
  valid_box cuboid_min cuboid_max ->
  box_within cuboid_min cuboid_max outer_min outer_max ->
  ray_intersects_cuboid ray_origin ray_direction cuboid_min cuboid_max = true ->
  ray_intersects_cuboid ray_origin ray_direction outer_min outer_max = true.
Proof.
  intros Hv Hw Hrun.
  destruct (valid_box_hit_point _ _ _ _ Hv Hrun) as (t & Ht & Hx & Hy & Hz).
  destruct Hw as ((X1 & X2) & (Y1 & Y2) & (Z1 & Z2)).
  apply reaches_intersects with (t := t), in_box_reaches; [exact Ht|].
  unfold in_box. lra.
Qed.

Lemma desk_ray_hit :
  ray_intersects_cuboid (mkVec 148 110 89) (mkVec (-1) 0 (- (1 / 2)))
    (bmin DESK_BOUNDS) (bmax DESK_BOUNDS) = true.
Proof.
  apply reaches_intersects with (t := 72), in_box_reaches; [lra|].
  unfold in_box, point_at; simpl. lra.
Qed.

Lemma ray_intersects_cuboid_monotone_witness :
  valid_box (bmin DESK_BOUNDS) (bmax DESK_BOUNDS) /\
  box_within (bmin DESK_BOUNDS) (bmax DESK_BOUNDS)
    (mkVec 60 100 0) (mkVec 122 140 54) /\
  ray_intersects_cuboid (mkVec 148 110 89) (mkVec (-1) 0 (- (1 / 2)))
    (bmin DESK_BOUNDS) (bmax DESK_BOUNDS) = true /\
  ray_intersects_cuboid (mkVec 148 110 89) (mkVec (-1) 0 (- (1 / 2)))
    (mkVec 60 100 0) (mkVec 122 140 54) = true.
Proof.
  assert (Hw : box_within (bmin DESK_BOUNDS) (bmax DESK_BOUNDS)
                 (mkVec 60 100 0) (mkVec 122 140 54)).
  { unfold box_within; simpl. lra. }
  split; [exact desk_valid_box|]. split; [exact Hw|].
  split; [exact desk_ray_hit|].
  exact (ray_intersects_cuboid_monotone (mkVec 148 110 89)
           (mkVec (-1) 0 (- (1 / 2)))
           (bmin DESK_BOUNDS) (bmax DESK_BOUNDS)
           (mkVec 60 100 0) (mkVec 122 140 54)
           desk_valid_box Hw desk_ray_hit).
Defined.

(** ** The sampling pass as a filter and a reduction *)

Lemma sample_point_absorb (d desk_min desk_max : vec3 R) (window_min : vec3 Z)
    (y : Z) (zs : list Z) :
  forall acc,
    fold_left (sample_point d desk_min desk_max window_min y) zs acc
    = absorb acc
        (filter (fun z => ray_intersects_cuboid
                            (vecR (mkVec (vx window_min) y z))
                            d desk_min desk_max) zs).
Proof.
  induction zs as [|z zs IH]; intros acc; simpl; [reflexivity|].
  rewrite IH. unfold sample_point at 1.
  destruct (ray_intersects_cuboid _ _ _ _); reflexivity.
Qed.

Lemma absorb_app (acc : sample) (l1 l2 : list Z) :
  absorb acc (l1 ++ l2) = absorb (absorb acc l1) l2.
Proof. apply fold_left_app. Qed.

Lemma sample_window_absorb (d desk_min desk_max : vec3 R)
    (window_min window_max : vec3 Z) :
  sample_window d desk_min desk_max window_min window_max
  = absorb (mkSample None None 0)
      (obstructed_heights d desk_min desk_max window_min window_max).
Proof.
  unfold sample_window, obstructed_heights.
  generalize (mkSample None None 0).
  induction (range (vy window_min) (vy window_max)) as [|y ys IH];
    intros acc; simpl; [reflexivity|].
  rewrite IH, absorb_app. f_equal.
  unfold sample_column. apply sample_point_absorb.
Qed.

Lemma absorb_total (hs : list Z) :
  forall acc, total_rays (absorb acc hs) = (total_rays acc + List.length hs)%nat.
Proof.
  unfold absorb. induction hs as [|z hs IH]; intros acc; simpl.
  - lia.
  - rewrite IH. simpl. lia.
Qed.

Lemma absorb_one_extremes (seen : list Z) (acc : sample) (z : Z) :
  extremes_of seen acc -> extremes_of (seen ++ [z]) (absorb_one acc z).
Proof.
  intros [(-> & Hmn & Hmx)|(mn & mx & Hmn & Hmx & Imn & Imx & Hall)];
    right; unfold absorb_one; simpl; rewrite Hmn, Hmx; simpl.
  - exists z, z. repeat split; auto; destruct H as [<-|[]]; lia.
  - exists (Z.min mn z), (Z.max mx z).
    split; [reflexivity|]. split; [reflexivity|].
    split; [|split].
    + apply in_or_app. destruct (Z.min_spec mn z) as [[_ ->]|[_ ->]];
        [left; exact Imn|right; left; reflexivity].
    + apply in_or_app. destruct (Z.max_spec mx z) as [[_ ->]|[_ ->]];
        [right; left; reflexivity|left; exact Imx].
    + intros w Hw. apply in_app_or in Hw. destruct Hw as [Hw|[<-|[]]].
      * specialize (Hall w Hw). lia.
      * lia.
Qed.

Lemma absorb_extremes (hs : list Z) :
  forall seen acc,
    extremes_of seen acc -> extremes_of (seen ++ hs) (absorb acc hs).
Proof.
  induction hs as [|z hs IH]; intros seen acc H; simpl.
  - rewrite app_nil_r. exact H.
  - replace (seen ++ z :: hs) with ((seen ++ [z]) ++ hs)
      by (rewrite <- app_assoc; reflexivity).
    apply IH, absorb_one_extremes, H.
Qed.

Lemma in_obstructed_heights (d desk_min desk_max : vec3 R)
    (window_min window_max : vec3 Z) (z : Z) :
  In z (obstructed_heights d desk_min desk_max window_min window_max)
  <-> obstructed d desk_min desk_max window_min window_max z.
Proof.
  unfold obstructed_heights, obstructed. rewrite in_flat_map. split.
  - intros (y & Hy & Hz). apply filter_In in Hz. destruct Hz as [Hz Hit].
    exists y. auto.
  - intros (y & Hy & Hz & Hit). exists y. split; [exact Hy|].
    apply filter_In. auto.
Qed.

Lemma range_length (lo hi : Z) : List.length (range lo hi) = Z.to_nat (hi - lo).
Proof. unfold range. rewrite length_map, length_seq. reflexivity. Qed.

Lemma flat_map_length_le {A B : Type} (f : A -> list B) (n : nat)
    (l : list A) :
  (forall x, List.length (f x) <= n)%nat ->
  (List.length (flat_map f l) <= List.length l * n)%nat.
Proof.
  intros Hf. induction l as [|x l IH]; simpl; [lia|].
  rewrite length_app. specialize (Hf x). lia.
Qed.

Lemma obstructed_heights_length (d desk_min desk_max : vec3 R)
    (window_min window_max : vec3 Z) :
  (List.length (obstructed_heights d desk_min desk_max window_min window_max)
   <= Z.to_nat (vy window_max - vy window_min)
      * Z.to_nat (vz window_max - vz window_min))%nat.
Proof.
  unfold obstructed_heights.
  rewrite <- (range_length (vy window_min)), <- (range_length (vz window_min)).
  apply flat_map_length_le. intros y. apply filter_length_le.
Qed.

Lemma shady_rays_count
    (sun_position : sun) (desk_min desk_max : vec3 R)
    (window_min window_max : vec3 Z) (window_orientation : R) :
  shady_rays (calculate_shading_requirements sun_position desk_min desk_max
                window_min window_max window_orientation)
  = List.length (obstructed_heights (sun_direction sun_position)
                   desk_min desk_max window_min window_max).
Proof.
  rewrite shady_rays_sample. fold (sun_direction sun_position).
  rewrite sample_window_absorb, absorb_total. reflexivity.
Qed.

(** X7. The returned ray count is the number of grid points whose ray meets
    the obstacle, and it never exceeds the number of grid points, the
    window's width times its height. *)
Theorem shady_rays_counts_obstructed
    (sun_position : sun) (desk_min desk_max : vec3 R)
    (window_min window_max : vec3 Z) (window_orientation : R) :
  let r := calculate_shading_requirements sun_position desk_min desk_max
             window_min window_max window_orientation in
  shady_rays r
  = List.length (obstructed_heights (sun_direction sun_position)
                   desk_min desk_max window_min window_max) /\
  (shady_rays r <= Z.to_nat (vy window_max - vy window_min)
                   * Z.to_nat (vz window_max - vz window_min))%nat.
Proof.
  intros r. subst r. rewrite shady_rays_count.
  split; [reflexivity|apply obstructed_heights_length].
Qed.

(** X8. The call reports no obstructed ray exactly when no ray of the grid
    meets the obstacle. *)
Theorem no_rays_iff_all_miss
    (sun_position : sun) (desk_min desk_max : vec3 R)
    (window_min window_max : vec3 Z) (window_orientation : R) :
  shady_rays (calculate_shading_requirements sun_position desk_min desk_max
                window_min window_max window_orientation) = 0%nat
  <->
  forall y z,
    In y (range (vy window_min) (vy window_max)) ->
    In z (range (vz window_min) (vz window_max)) ->
    ray_intersects_cuboid (vecR (mkVec (vx window_min) y z))
      (sun_direction sun_position) desk_min desk_max = false.
Proof.
  rewrite shady_rays_count. split.
  - intros H0 y z Hy Hz. apply not_true_false. intros Hit.
    assert (Hin : In z (obstructed_heights (sun_direction sun_position)
                          desk_min desk_max window_min window_max)).
    { apply in_obstructed_heights. exists y. auto. }
    destruct (obstructed_heights _ _ _ _ _); [destruct Hin|discriminate].
  - intros Hmiss.
    destruct (obstructed_heights (sun_direction sun_position)
                desk_min desk_max window_min window_max) as [|z l] eqn:E;
      [reflexivity|].
    assert (Hin : In z (obstructed_heights (sun_direction sun_position)
                          desk_min desk_max window_min window_max))
      by (rewrite E; left; reflexivity).
    apply in_obstructed_heights in Hin. destruct Hin as (y & Hy & Hz & Hit).
    rewrite (Hmiss y z Hy Hz) in Hit. discriminate.
Qed.

(** X9. With at least one obstructed ray, the two fractions are measured
    from the highest and from the lowest obstructed height of the grid:
    both heights are heights of obstructed rays, every obstructed height
    lies between them, [top_percent] is the distance from the top of the
    window to the highest one and [bottom_percent] the distance to the
    lowest one, each divided by the window height. *)
Theorem percents_from_extremes
    (sun_position : sun) (desk_min desk_max : vec3 R)
    (window_min window_max : vec3 Z) (window_orientation : R) :
  let r := calculate_shading_requirements sun_position desk_min desk_max
             window_min window_max window_orientation in
  let hit := obstructed (sun_direction sun_position) desk_min desk_max
               window_min window_max in
  (0 < shady_rays r)%nat ->
  exists lowest highest,
    hit lowest /\ hit highest /\
    (forall z, hit z -> (lowest <= z <= highest)%Z) /\
    top_percent r
    = IZR (vz window_max - highest) / IZR (vz window_max - vz window_min) /\
    bottom_percent r
    = IZR (vz window_max - lowest) / IZR (vz window_max - vz window_min).
Proof.
  intros r hit Hpos.
  set (hs := obstructed_heights (sun_direction sun_position)
               desk_min desk_max window_min window_max).
  assert (Hacc : sample_window (sun_direction sun_position)
                   desk_min desk_max window_min window_max
                 = absorb (mkSample None None 0) hs)
    by apply sample_window_absorb.
  assert (Hex : extremes_of hs (absorb (mkSample None None 0) hs)).
  { apply (absorb_extremes hs [] (mkSample None None 0)).
    left. repeat split. }
  assert (Hn : shady_rays r = List.length hs) by apply shady_rays_count.
  destruct Hex as [(Hnil & _)|(mn & mx & Hmn & Hmx & Imn & Imx & Hall)].
  - rewrite Hnil in Hn. simpl in Hn. lia.
  - rewrite <- Hacc in Hmn, Hmx.
    exists mn, mx.
    split; [apply in_obstructed_heights; exact Imn|].
    split; [apply in_obstructed_heights; exact Imx|].
    split; [intros z Hz; apply Hall, in_obstructed_heights, Hz|].
    unfold r, calculate_shading_requirements.
    fold (sun_direction sun_position).
    unfold r in Hpos. rewrite shady_rays_sample in Hpos.
    fold (sun_direction sun_position) in Hpos.
    destruct (Nat.eqb_spec
                (total_rays (sample_window (sun_direction sun_position)
                               desk_min desk_max window_min window_max)) 0)
      as [E|_]; [lia|].
    simpl. rewrite Hmn, Hmx. split; reflexivity.
Qed.

Lemma percents_from_extremes_witness :
  let r := calculate_shading_requirements sun_ahead
             (bmin DESK_BOUNDS) (bmax DESK_BOUNDS)
             (wmin Window1) (wmax Window1) WINDOW_ORIENTATION in
  let hit := obstructed (sun_direction sun_ahead)
               (bmin DESK_BOUNDS) (bmax DESK_BOUNDS)
               (wmin Window1) (wmax Window1) in
  (0 < shady_rays r)%nat /\
  exists lowest highest,
    hit lowest /\ hit highest /\
    (forall z, hit z -> (lowest <= z <= highest)%Z) /\
    top_percent r
    = IZR (vz (wmax Window1) - highest)
      / IZR (vz (wmax Window1) - vz (wmin Window1)) /\
    bottom_percent r
    = IZR (vz (wmax Window1) - lowest)
      / IZR (vz (wmax Window1) - vz (wmin Window1)).
Proof.
  split; [exact sun_ahead_some_rays|].
  exact (percents_from_extremes sun_ahead
           (bmin DESK_BOUNDS) (bmax DESK_BOUNDS)
           (wmin Window1) (wmax Window1) WINDOW_ORIENTATION
           sun_ahead_some_rays).
Defined.

(** ** Shade states that the call can and cannot return *)

(** X10. The fractions returned are zero only when no ray is obstructed:
    with an obstructed ray both are at least one grid step of the window
    height, so [top_percent = 0] and [bottom_percent = 0] each hold exactly
    when the ray count is 0. *)
Theorem zero_percent_iff_no_rays
    (sun_position : sun) (desk_min desk_max : vec3 R)
    (window_min window_max : vec3 Z) (window_orientation : R) :
  let r := calculate_shading_requirements sun_position desk_min desk_max
             window_min window_max window_orientation in
  (top_percent r = 0 <-> shady_rays r = 0%nat) /\
  (bottom_percent r = 0 <-> shady_rays r = 0%nat) /\
  (shady_rays r = 0%nat \/
   1 / IZR (vz window_max - vz window_min) <= top_percent r).
Proof.
  intros r.
  destruct (calculate_shading_requirements_cases sun_position desk_min
              desk_max window_min window_max window_orientation)
    as [(H0 & Ht & Hb)|(Hpos & Hh & mn & mx & Hord & Hlt & Ht & Hb)];
    fold r in H0, Ht, Hb || fold r in Hpos, Ht, Hb.
  - rewrite H0, Ht, Hb. split; [tauto|]. split; [tauto|]. left; reflexivity.
  - assert (Hh' : 0 < IZR (vz window_max - vz window_min))
      by (apply IZR_lt; exact Hh).
    assert (Hi : 0 < / IZR (vz window_max - vz window_min))
      by (apply Rinv_0_lt_compat; exact Hh').
    assert (H1 : 1 <= IZR (vz window_max - mx)) by (apply IZR_le; lia).
    assert (H2 : 1 <= IZR (vz window_max - mn)) by (apply IZR_le; lia).
    assert (Tpos : 1 / IZR (vz window_max - vz window_min) <= top_percent r).
    { rewrite Ht. unfold Rdiv. apply Rmult_le_compat_r; lra. }
    assert (Bpos : 1 / IZR (vz window_max - vz window_min)
                   <= bottom_percent r).
    { rewrite Hb. unfold Rdiv. apply Rmult_le_compat_r; lra. }
    assert (Upos : 0 < 1 / IZR (vz window_max - vz window_min))
      by (unfold Rdiv; lra).
    split; [|split].
    + split; [intros E; lra|intros E; lia].
    + split; [intros E; lra|intros E; lia].
    + right. exact Tpos.
Qed.

(** X11. A window whose range of [y] is empty ([max.y <= min.y]) is not
    sampled at all: the call returns both fractions 0 and a ray count of 0,
    whatever the sun and the obstacle. *)
Theorem narrow_window_returns_open
    (sun_position : sun) (desk_min desk_max : vec3 R)
    (window_min window_max : vec3 Z) (window_orientation : R) :
  (vy window_max <= vy window_min)%Z ->
  calculate_shading_requirements sun_position desk_min desk_max
    window_min window_max window_orientation
  = mkShading 0 0 0 (relative_azimuth_of sun_position)
              (elevation sun_position).
Proof.
  intros H. unfold calculate_shading_requirements, sample_window.
  rewrite (range_empty (vy window_min) (vy window_max) H). reflexivity.
Qed.

Lemma narrow_window_returns_open_witness :
  (vy (mkVec 148 98 90)%Z <= vy (wmin Window1))%Z /\
  calculate_shading_requirements sun_ahead
    (bmin DESK_BOUNDS) (bmax DESK_BOUNDS)
    (wmin Window1) (mkVec 148 98 90)%Z WINDOW_ORIENTATION
  = mkShading 0 0 0 (relative_azimuth_of sun_ahead) (elevation sun_ahead).
Proof.
  assert (H : (vy (mkVec 148 98 90)%Z <= vy (wmin Window1))%Z)
    by (simpl; lia).
  split; [exact H|].
  exact (narrow_window_returns_open sun_ahead
           (bmin DESK_BOUNDS) (bmax DESK_BOUNDS)
           (wmin Window1) (mkVec 148 98 90)%Z WINDOW_ORIENTATION H).
Defined.

(** X12. When the x component of the ray direction, [-cos] of the relative
    azimuth, is positive (the sun is behind the window plane) and the
    obstacle lies entirely on the room side of the window (both of its x
    faces below the window's x), no ray is obstructed and the shade is
    reported fully open. *)
Theorem sun_behind_window_open
    (sun_position : sun) (desk_min desk_max : vec3 R)
    (window_min window_max : vec3 Z) (window_orientation : R) :
  0 < vx (sun_direction sun_position) ->
  vx desk_min < IZR (vx window_min) ->
  vx desk_max < IZR (vx window_min) ->
  calculate_shading_requirements sun_position desk_min desk_max
    window_min window_max window_orientation
  = mkShading 0 0 0 (relative_azimuth_of sun_position)
              (elevation sun_position).
Proof.
  intros Hd Hlo Hhi. unfold calculate_shading_requirements.
  fold (sun_direction sun_position).
  rewrite sample_window_all_miss; [reflexivity|].
  intros y z. apply leaving_ray_misses; simpl; assumption.
Qed.

Lemma sun_behind_direction_positive : 0 < vx (sun_direction sun_behind).
Proof. unfold sun_direction. rewrite sun_behind_direction. lra. Qed.

Lemma sun_behind_window_open_witness :
  0 < vx (sun_direction sun_behind) /\
  vx (bmin DESK_BOUNDS) < IZR (vx (wmin Window1)) /\
  vx (bmax DESK_BOUNDS) < IZR (vx (wmin Window1)) /\
  calculate_shading_requirements sun_behind
    (bmin DESK_BOUNDS) (bmax DESK_BOUNDS)
    (wmin Window1) (wmax Window1) WINDOW_ORIENTATION
  = mkShading 0 0 0 (relative_azimuth_of sun_behind) (elevation sun_behind).
Proof.
  assert (H1 : vx (bmin DESK_BOUNDS) < IZR (vx (wmin Window1)))
    by (simpl; lra).
  assert (H2 : vx (bmax DESK_BOUNDS) < IZR (vx (wmin Window1)))
    by (simpl; lra).
  split; [exact sun_behind_direction_positive|].
  split; [exact H1|]. split; [exact H2|].
  exact (sun_behind_window_open sun_behind
           (bmin DESK_BOUNDS) (bmax DESK_BOUNDS)
           (wmin Window1) (wmax Window1) WINDOW_ORIENTATION
           sun_behind_direction_positive H1 H2).
Defined.

(** X13. The horizontal part of the ray direction always has length 1 and
    its vertical part lies in [-1, 1]: the direction is never the zero
    vector, and no ray is steeper than 45 degrees, whatever the elevation
    of the sun. *)
Theorem ray_direction_shape (relative_azimuth_rads elevation_rads : R) :
  let d := ray_direction_of relative_azimuth_rads elevation_rads in
  vx d * vx d + vy d * vy d = 1 /\
  -1 <= vz d <= 1 /\
  (vx d <> 0 \/ vy d <> 0).
Proof.
  intros d. unfold d, ray_direction_of. simpl.
  assert (H := sin2_cos2 relative_azimuth_rads). unfold Rsqr in H.
  assert (Hs := SIN_bound elevation_rads).
  split; [lra|]. split; [lra|].
  destruct (Req_dec_T (cos relative_azimuth_rads) 0) as [E|E].
  - right. intros F. rewrite E, F in H. lra.
  - left. lra.
Qed.

(** ** The published rails *)

Lemma Int_part_monotone (x y : R) : x <= y -> (Int_part x <= Int_part y)%Z.
Proof.
  intros H. destruct (base_Int_part x) as [Hx _].
  destruct (base_Int_part y) as [_ Hy].
  assert (Hlt : IZR (Int_part x) < IZR (Int_part y + 1)).
  { rewrite plus_IZR. lra. }
  apply lt_IZR in Hlt. lia.
Qed.

Lemma window_shade_position_order (sun_pos : sun) (bounds : window) :
  let p := window_shade_position sun_pos bounds in
  (0 <= top p)%Z /\ (0 <= bottom p)%Z /\ (top p + bottom p <= 100)%Z.
Proof.
  intros p.
  destruct (window_shade_position_spec sun_pos bounds)
    as (Et & Eb & Bt & Bb & _). fold p in Et, Eb, Bt, Bb.
  destruct (percents_in_unit sun_pos (bmin DESK_BOUNDS) (bmax DESK_BOUNDS)
              (wmin bounds) (wmax bounds) WINDOW_ORIENTATION)
    as [[_ Hle] _].
  assert (Hm : (Int_part (top_percent
                            (calculate_shading_requirements sun_pos
                               (bmin DESK_BOUNDS) (bmax DESK_BOUNDS)
                               (wmin bounds) (wmax bounds)
                               WINDOW_ORIENTATION) * 100)
                <= Int_part (bottom_percent
                               (calculate_shading_requirements sun_pos
                                  (bmin DESK_BOUNDS) (bmax DESK_BOUNDS)
                                  (wmin bounds) (wmax bounds)
                                  WINDOW_ORIENTATION) * 100))%Z).
  { apply Int_part_monotone. lra. }
  split; [lia|]. split; [lia|]. rewrite Et, Eb. lia.
Qed.

(** X14. In every entry of the published mapping the two rail positions are
    non-negative and add up to at most 100: the top rail is never published
    below the bottom rail. *)
Theorem published_rails_do_not_cross
    (sun_pos : sun) (window_name : string) (p : shade_position) :
  In (window_name, p) (calculate_current_shade_positions sun_pos) ->
  (0 <= top p)%Z /\ (0 <= bottom p)%Z /\ (top p + bottom p <= 100)%Z.
Proof.
  unfold calculate_current_shade_positions. intros Hin.
  apply in_map_iff in Hin. destruct Hin as ([name bounds] & E & _).
  injection E as _ <-. apply window_shade_position_order.
Qed.

Lemma published_rails_do_not_cross_witness :
  In ("Window1"%string, window_shade_position sun_ahead Window1)
     (calculate_current_shade_positions sun_ahead) /\
  (0 <= top (window_shade_position sun_ahead Window1))%Z /\
  (0 <= bottom (window_shade_position sun_ahead Window1))%Z /\
  (top (window_shade_position sun_ahead Window1)
   + bottom (window_shade_position sun_ahead Window1) <= 100)%Z.
Proof.
  assert (H : In ("Window1"%string, window_shade_position sun_ahead Window1)
                 (calculate_current_shade_positions sun_ahead))
    by (left; reflexivity).
  split; [exact H|].
  exact (published_rails_do_not_cross sun_ahead "Window1"
           (window_shade_position sun_ahead Window1) H).
Defined.

(** ** The time series and the frames of the animation *)

(** X15. For every time of the series, frame [i] of the animation reads the
    tuple of [Window1] at [results[i*2]] and the tuple of [Window2] at
    [results[i*2+1]], both computed for the [i]-th time: the two indices are
    in range and the subplots show the windows they are titled with. *)
Theorem animate_reads_both_windows
    (T : Type) (sun_of : T -> sun) (times : list T) (i : nat) (time : T) :
  nth_error times i = Some time ->
  animate_rows (generate_time_series_results sun_of times) i
  = (Some (series_entry time (sun_of time) "Window1" Window1),
     Some (series_entry time (sun_of time) "Window2" Window2)).
Proof.
  unfold animate_rows. revert i.
  induction times as [|t0 rest IH]; intros i Hi.
  - destruct i; discriminate.
  - destruct i as [|i].
    + injection Hi as ->. reflexivity.
    + simpl in Hi. specialize (IH i Hi).
      injection IH as IH1 IH2.
      replace (S i * 2)%nat with (S (S (i * 2))) by lia.
      replace (S (S (i * 2)) + 1)%nat with (S (S (i * 2 + 1))) by lia.
      change (generate_time_series_results sun_of (t0 :: rest))
        with (series_entry t0 (sun_of t0) "Window1" Window1
              :: series_entry t0 (sun_of t0) "Window2" Window2
              :: generate_time_series_results sun_of rest).
      simpl nth_error. rewrite IH1, IH2. reflexivity.
Qed.

Lemma animate_reads_both_windows_witness :
  nth_error [6; 7]%nat 1 = Some 7%nat /\
  animate_rows
    (generate_time_series_results
       (fun hour : nat => mkSun (15 * INR hour) 30) [6; 7]%nat) 1
  = (Some (series_entry 7%nat (mkSun (15 * INR 7) 30) "Window1" Window1),
     Some (series_entry 7%nat (mkSun (15 * INR 7) 30) "Window2" Window2)).
Proof.
  split; [reflexivity|].
  exact (animate_reads_both_windows nat
           (fun hour : nat => mkSun (15 * INR hour) 30)
           [6; 7]%nat 1 7%nat eq_refl).
Defined.

(** ** A larger obstacle obstructs more *)

Lemma filter_length_mono {A : Type} (f g : A -> bool) (l : list A) :
  (forall x, f x = true -> g x = true) ->
  (List.length (filter f l) <= List.length (filter g l))%nat.
Proof.
  intros Hfg. induction l as [|x l IH]; simpl; [lia|].
  destruct (f x) eqn:Ef.
  - rewrite (Hfg x Ef). simpl. lia.
  - destruct (g x); simpl; lia.
Qed.

Lemma flat_map_length_mono {A B : Type} (f g : A -> list B) (l : list A) :
  (forall x, List.length (f x) <= List.length (g x))%nat ->
  (List.length (flat_map f l) <= List.length (flat_map g l))%nat.
Proof.
  intros Hfg. induction l as [|x l IH]; simpl; [lia|].
  rewrite !length_app. specialize (Hfg x). lia.
Qed.

(** X16. Enlarging a valid obstacle box never lowers the ray count: every
    ray obstructed by the smaller box is obstructed by the larger one. *)
Theorem larger_desk_more_rays
    (sun_position : sun) (desk_min desk_max outer_min outer_max : vec3 R)
    (window_min window_max : vec3 Z) (window_orientation : R) :
  valid_box desk_min desk_max ->
  box_within desk_min desk_max outer_min outer_max ->
  (shady_rays (calculate_shading_requirements sun_position desk_min desk_max
                 window_min window_max window_orientation)
   <= shady_rays (calculate_shading_requirements sun_position
                    outer_min outer_max
                    window_min window_max window_orientation))%nat.
Proof.
  intros Hv Hw. rewrite !shady_rays_count. unfold obstructed_heights.
  apply flat_map_length_mono. intros y.
  apply filter_length_mono. intros z Hit.
  destruct (valid_box_hit_point _ _ _ _ Hv Hit) as (t & Ht & Hx & Hy & Hz).
  destruct Hw as ((X1 & X2) & (Y1 & Y2) & (Z1 & Z2)).
  apply reaches_intersects with (t := t), in_box_reaches; [exact Ht|].
  unfold in_box. lra.
Qed.

Lemma larger_desk_more_rays_witness :
  valid_box (bmin DESK_BOUNDS) (bmax DESK_BOUNDS) /\
  box_within (bmin DESK_BOUNDS) (bmax DESK_BOUNDS)
    (mkVec 60 100 0) (mkVec 122 140 54) /\
  (shady_rays (calculate_shading_requirements sun_ahead
                 (bmin DESK_BOUNDS) (bmax DESK_BOUNDS)
                 (wmin Window1) (wmax Window1) WINDOW_ORIENTATION)
   <= shady_rays (calculate_shading_requirements sun_ahead
                    (mkVec 60 100 0)%R (mkVec 122 140 54)%R
                    (wmin Window1) (wmax Window1) WINDOW_ORIENTATION))%nat.
Proof.
  assert (Hw : box_within (bmin DESK_BOUNDS) (bmax DESK_BOUNDS)
                 (mkVec 60 100 0) (mkVec 122 140 54)).
  { unfold box_within; simpl. lra. }
  split; [exact desk_valid_box|]. split; [exact Hw|].
  exact (larger_desk_more_rays sun_ahead
           (bmin DESK_BOUNDS) (bmax DESK_BOUNDS)
           (mkVec 60 100 0) (mkVec 122 140 54)
           (wmin Window1) (wmax Window1) WINDOW_ORIENTATION
           desk_valid_box Hw).
Defined.
